(** * ESP_CAN: a bit-banged CAN 2.0A node

    Shallow embedding of the feature-complete ESP_CAN library
    (ESP_CAN.h / ESP_CAN.cpp): fault confinement, the blocking
    transmitter [sendFrame], the tick-driven receiver [readFrame] and the
    CRC-15 engine [calculateCRC].

    Conventions.
    - A line level is a [bool]: [HIGH] = [true] = recessive,
      [LOW] = [false] = dominant.
    - Fixed-width integers are [Z] with the wrap-around written out:
      [uint8_t] modulo 2^8, [uint16_t] modulo 2^16, [uint32_t] and
      [unsigned long] modulo 2^32.
    - The Arduino primitives ([pinMode], [digitalWrite], [digitalRead],
      [delayMicroseconds]) are recorded in a trace of events, newest
      first; what [digitalRead] returns and what [micros] returns are
      inputs of the model. *)

From Stdlib Require Import ZArith Lia Bool List.
From stdpp Require Import base list.
Import ListNotations.

Local Open Scope Z_scope.

(** ** Data model (ESP_CAN.h) *)

Definition HIGH : bool := true.
Definition LOW : bool := false.

Inductive CAN_State :=
| CAN_STATE_ERROR_ACTIVE
| CAN_STATE_ERROR_PASSIVE
| CAN_STATE_BUS_OFF.

Inductive CAN_Read_Status :=
| CAN_READ_NO_MSG
| CAN_READ_MSG_OK
| CAN_READ_ERROR.

Inductive RxState := RX_STATE_IDLE | RX_STATE_SOF | RX_STATE_FRAME.

#[global] Instance CAN_State_eq_dec : EqDecision CAN_State.
Proof. solve_decision. Defined.

#[global] Instance CAN_Read_Status_eq_dec : EqDecision CAN_Read_Status.
Proof. solve_decision. Defined.

#[global] Instance RxState_eq_dec : EqDecision RxState.
Proof. solve_decision. Defined.

(** [struct CAN_Frame]: [id] is a [uint32_t], [dlc] a [uint8_t], [data]
    an array of eight [uint8_t]. *)
Record CAN_Frame := {
  id : Z;
  dlc : Z;
  data : list Z
}.

(** [class ESP_CAN]: the public counters and state, then the private
    members. [tec] and [rec] are [uint8_t]; [_bitTimeUs], [_rxBitCount]
    and [_consecutiveBits] are [int]; [_lastSampleTime] is an
    [unsigned long]; [_rxBuffer] is [bool[128]]. *)
Record ESP_CAN := {
  tec : Z;
  rec : Z;
  state : CAN_State;
  _rxPin : Z;
  _txPin : Z;
  _bitTimeUs : Z;
  _lastSampleTime : Z;
  _rxState : RxState;
  _rxBuffer : list bool;
  _rxBitCount : Z;
  _consecutiveBits : Z;
  _lastBit : bool
}.

Definition uint8 (x : Z) : Z := x mod 256.
Definition uint16 (x : Z) : Z := x mod 65536.
Definition uint32 (x : Z) : Z := x mod 4294967296.

Definition b2z (b : bool) : Z := if b then 1 else 0.

(** Field updates of the node object. *)
Definition set_tec (v : Z) (n : ESP_CAN) : ESP_CAN :=
  {| tec := v; rec := rec n; state := state n;
     _rxPin := _rxPin n; _txPin := _txPin n; _bitTimeUs := _bitTimeUs n;
     _lastSampleTime := _lastSampleTime n; _rxState := _rxState n;
     _rxBuffer := _rxBuffer n; _rxBitCount := _rxBitCount n;
     _consecutiveBits := _consecutiveBits n; _lastBit := _lastBit n |}.

Definition set_rec (v : Z) (n : ESP_CAN) : ESP_CAN :=
  {| tec := tec n; rec := v; state := state n;
     _rxPin := _rxPin n; _txPin := _txPin n; _bitTimeUs := _bitTimeUs n;
     _lastSampleTime := _lastSampleTime n; _rxState := _rxState n;
     _rxBuffer := _rxBuffer n; _rxBitCount := _rxBitCount n;
     _consecutiveBits := _consecutiveBits n; _lastBit := _lastBit n |}.

Definition set_state (v : CAN_State) (n : ESP_CAN) : ESP_CAN :=
  {| tec := tec n; rec := rec n; state := v;
     _rxPin := _rxPin n; _txPin := _txPin n; _bitTimeUs := _bitTimeUs n;
     _lastSampleTime := _lastSampleTime n; _rxState := _rxState n;
     _rxBuffer := _rxBuffer n; _rxBitCount := _rxBitCount n;
     _consecutiveBits := _consecutiveBits n; _lastBit := _lastBit n |}.

Definition set_timing (bitTime last : Z) (n : ESP_CAN) : ESP_CAN :=
  {| tec := tec n; rec := rec n; state := state n;
     _rxPin := _rxPin n; _txPin := _txPin n; _bitTimeUs := bitTime;
     _lastSampleTime := last; _rxState := _rxState n;
     _rxBuffer := _rxBuffer n; _rxBitCount := _rxBitCount n;
     _consecutiveBits := _consecutiveBits n; _lastBit := _lastBit n |}.

(** The receiver's working set: sub-state, buffer, bit count, run
    counter and last polarity. *)
Definition set_rx (st : RxState) (buf : list bool) (cnt run : Z) (last : bool)
    (n : ESP_CAN) : ESP_CAN :=
  {| tec := tec n; rec := rec n; state := state n;
     _rxPin := _rxPin n; _txPin := _txPin n; _bitTimeUs := _bitTimeUs n;
     _lastSampleTime := _lastSampleTime n; _rxState := st;
     _rxBuffer := buf; _rxBitCount := cnt;
     _consecutiveBits := run; _lastBit := last |}.

(** ** Arduino primitives *)

Inductive PinMode := INPUT | OUTPUT | INPUT_PULLUP.

Inductive Event :=
| EvPinMode (pin : Z) (m : PinMode)
| EvDigitalWrite (pin : Z) (level : bool)
| EvDelayMicroseconds (us : Z)
| EvDigitalRead (pin : Z) (level : bool).

#[global] Instance PinMode_eq_dec : EqDecision PinMode.
Proof. solve_decision. Defined.

#[global] Instance Event_eq_dec : EqDecision Event.
Proof. solve_decision. Defined.

(** A trace lists the calls made so far, newest first. *)
Definition Trace := list Event.

(** Number of bit periods that have elapsed in a trace: every
    [delayMicroseconds] of the library waits one bit time. *)
Fixpoint elapsed (t : Trace) : nat :=
  match t with
  | [] => 0%nat
  | EvDelayMicroseconds _ :: t' => S (elapsed t')
  | _ :: t' => elapsed t'
  end.

(** ** Construction and configuration *)

(** The constructor sets the pins, the counters, the node state and the
    receiver sub-state; every other member keeps whatever the storage
    held, which is the argument [raw]. *)
Definition ESP_CAN_new (rxPin txPin : Z) (raw : ESP_CAN) : ESP_CAN :=
  {| tec := 0; rec := 0; state := CAN_STATE_ERROR_ACTIVE;
     _rxPin := rxPin; _txPin := txPin; _bitTimeUs := _bitTimeUs raw;
     _lastSampleTime := _lastSampleTime raw; _rxState := RX_STATE_IDLE;
     _rxBuffer := _rxBuffer raw; _rxBitCount := _rxBitCount raw;
     _consecutiveBits := _consecutiveBits raw; _lastBit := _lastBit raw |}.

(** [begin(baudrate)]; [now] is what [micros()] returns. The division is
    C's truncating division of two [long]s; a zero baud rate is undefined
    behaviour there and yields [None] here. *)
Definition begin (baudrate now : Z) (n : ESP_CAN) (t : Trace)
    : option (ESP_CAN * Trace) :=
  let t := EvPinMode (_txPin n) OUTPUT :: t in
  let t := EvPinMode (_rxPin n) INPUT_PULLUP :: t in
  let t := EvDigitalWrite (_txPin n) HIGH :: t in
  if baudrate =? 0 then None
  else Some (set_timing (Z.quot 1000000 baudrate) (uint32 now) n, t).

(** ** Fault confinement *)

Definition updateState (n : ESP_CAN) : ESP_CAN :=
  if (tec n >? 255) || (rec n >? 255) then set_state CAN_STATE_BUS_OFF n
  else if (tec n >? 127) || (rec n >? 127) then set_state CAN_STATE_ERROR_PASSIVE n
  else set_state CAN_STATE_ERROR_ACTIVE n.

Definition is_bus_off (n : ESP_CAN) : bool :=
  bool_decide (state n = CAN_STATE_BUS_OFF).

Definition handleError (isTxError isRxError : bool) (n : ESP_CAN) : ESP_CAN :=
  let n := if isTxError && negb (is_bus_off n)
           then set_tec (uint8 (tec n + 8)) n else n in
  let n := if isRxError && negb (is_bus_off n)
           then set_rec (uint8 (rec n + 1)) n else n in
  updateState n.

Definition handleSuccess (isTxSuccess isRxSuccess : bool) (n : ESP_CAN) : ESP_CAN :=
  let n := if isTxSuccess && (tec n >? 0)
           then set_tec (uint8 (tec n - 1)) n else n in
  let n := if isRxSuccess && (rec n >? 0)
           then set_rec (uint8 (rec n - 1)) n else n in
  updateState n.

(** ** CRC engine *)

(** One iteration of the loop of [calculateCRC]; [crc_reg] is a
    [uint16_t]. *)
Definition crc_step (crc_reg : Z) (bit : bool) : Z :=
  let do_xor :=
    negb (Z.lxor (Z.shiftr (Z.land crc_reg 0x4000) 14) (b2z bit) =? 0) in
  let crc_reg := uint16 (Z.shiftl crc_reg 1) in
  if do_xor then uint16 (Z.lxor crc_reg 0x4599) else crc_reg.

(** [calculateCRC(bits, len)] reads [bits[0]] to [bits[len-1]]. *)
Definition calculateCRC (bits : list bool) (len : Z) : Z :=
  Z.land (fold_left crc_step (take (Z.to_nat len) bits) 0) 0x7FFF.

(** ** Transmitter *)

(** [(x >> i) & 0x01] as a [bool]. *)
Definition bit_at (x : Z) (i : Z) : bool :=
  negb (Z.land (Z.shiftr x i) 1 =? 0).

(** [for (i = w-1; i >= 0; i--) ... (x >> i) & 0x01]: the [w] low bits of
    [x], most significant first. *)
Fixpoint bits_msb (w : nat) (x : Z) : list bool :=
  match w with
  | O => []
  | S k => bit_at x (Z.of_nat k) :: bits_msb k x
  end.

(** The [dlc] local of [sendFrame]. *)
Definition clamp_dlc (d : Z) : Z := if d >? 8 then 8 else d.

(** The bit sequence built for the CRC: identifier, RTR, IDE, r0, DLC and
    the data bytes. *)
Definition frame_bits (frame : CAN_Frame) : list bool :=
  let dlc := clamp_dlc (dlc frame) in
  bits_msb 11 (id frame)
  ++ [false; false; false]
  ++ bits_msb 4 dlc
  ++ flat_map (fun i => bits_msb 8 (nth i (data frame) 0))
              (seq 0 (Z.to_nat dlc)).

Section Transmitter.

(** [rx k] is the level [digitalRead(_rxPin)] returns once [k] bit
    periods have elapsed in the trace. *)
Variable rx : nat -> bool.

Definition sendBit (n : ESP_CAN) (bit checkArbitration : bool) (t : Trace)
    : bool * Trace :=
  if is_bus_off n then (false, t)
  else
    let t := EvDigitalWrite (_txPin n) bit :: t in
    let t := EvDelayMicroseconds (_bitTimeUs n) :: t in
    if checkArbitration && bit then
      let level := rx (elapsed t) in
      let t := EvDigitalRead (_rxPin n) level :: t in
      if negb level then (false, t) else (true, t)
    else (true, t).

(** The two stuffing loops of [sendFrame] have the same body; they
    differ in the bits they walk and in [checkArbitration]. [None]
    stands for the early exit [{ handleError(true, false); return
    false; }]. *)
Fixpoint sendStuffed (n : ESP_CAN) (checkArbitration : bool)
    (bits : list bool) (consecutiveBits : Z) (lastBit : bool) (t : Trace)
    : option (Z * bool) * Trace :=
  match bits with
  | [] => (Some (consecutiveBits, lastBit), t)
  | bit :: bits' =>
    let consecutiveBits :=
      if eqb bit lastBit then consecutiveBits + 1 else 1 in
    let lastBit := bit in
    match sendBit n bit checkArbitration t with
    | (false, t) => (None, t)
    | (true, t) =>
      if consecutiveBits =? 5 then
        match sendBit n (negb lastBit) checkArbitration t with
        | (false, t) => (None, t)
        | (true, t) =>
          sendStuffed n checkArbitration bits' 0 (negb lastBit) t
        end
      else sendStuffed n checkArbitration bits' consecutiveBits lastBit t
    end
  end.

(** The ACK slot: release TX, wait one bit, sample RX, take TX back. *)
Definition ackSlot (n : ESP_CAN) (t : Trace) : bool * Trace :=
  let t := EvPinMode (_txPin n) INPUT :: t in
  let t := EvDelayMicroseconds (_bitTimeUs n) :: t in
  let level := rx (elapsed t) in
  let t := EvDigitalRead (_rxPin n) level :: t in
  let ackReceived := negb level in
  let t := EvPinMode (_txPin n) OUTPUT :: t in
  let t := EvDigitalWrite (_txPin n) HIGH :: t in
  (ackReceived, t).

(** [k] recessive bits whose [sendBit] result is ignored: the ACK
    delimiter and the EOF. *)
Fixpoint sendRecessive (n : ESP_CAN) (k : nat) (t : Trace) : Trace :=
  match k with
  | O => t
  | S k' => sendRecessive n k' (snd (sendBit n HIGH false t))
  end.

Definition sendFrame (frame : CAN_Frame) (n : ESP_CAN) (t : Trace)
    : bool * ESP_CAN * Trace :=
  if is_bus_off n then (false, n, t)
  else
    let bitSequence := frame_bits frame in
    let crc := calculateCRC bitSequence (Z.of_nat (length bitSequence)) in
    let abort (t : Trace) := (false, handleError true false n, t) in
    match sendBit n LOW false t with
    | (false, t) => abort t
    | (true, t) =>
      match sendStuffed n true bitSequence 0 LOW t with
      | (None, t) => abort t
      | (Some (consecutiveBits, lastBit), t) =>
        match sendStuffed n false (bits_msb 15 crc)
                consecutiveBits lastBit t with
        | (None, t) => abort t
        | (Some _, t) =>
          match sendBit n HIGH false t with
          | (false, t) => abort t
          | (true, t) =>
            let '(ackReceived, t) := ackSlot n t in
            if negb ackReceived then abort t
            else
              let t := sendRecessive n 1 t in
              let t := sendRecessive n 7 t in
              (true, handleSuccess true false n, t)
          end
        end
      end
    end.

End Transmitter.

(** ** What the transmitter puts on the wire *)

(** Level of the TX pin during each bit period of a trace given oldest
    first. A pin switched to input is high-impedance, which the bus sees
    as recessive. *)
Fixpoint txLevels (txPin : Z) (mode : PinMode) (level : bool)
    (events : list Event) : list bool :=
  match events with
  | [] => []
  | EvPinMode p m :: es =>
    if p =? txPin then txLevels txPin m level es
    else txLevels txPin mode level es
  | EvDigitalWrite p l :: es =>
    if p =? txPin then txLevels txPin mode l es
    else txLevels txPin mode level es
  | EvDelayMicroseconds _ :: es =>
    (if bool_decide (mode = OUTPUT) then level else HIGH)
      :: txLevels txPin mode level es
  | EvDigitalRead _ _ :: es => txLevels txPin mode level es
  end.

(** The bits a node drives, one per bit period, starting from an idle
    (output, recessive) TX pin. *)
Definition wire (n : ESP_CAN) (t : Trace) : list bool :=
  txLevels (_txPin n) OUTPUT HIGH (rev t).

(** Mode and level of the TX pin once the events, given oldest first,
    have happened. *)
Fixpoint txStateAfter (txPin : Z) (mode : PinMode) (level : bool)
    (events : list Event) : PinMode * bool :=
  match events with
  | [] => (mode, level)
  | EvPinMode p m :: es =>
    if p =? txPin then txStateAfter txPin m level es
    else txStateAfter txPin mode level es
  | EvDigitalWrite p l :: es =>
    if p =? txPin then txStateAfter txPin mode l es
    else txStateAfter txPin mode level es
  | _ :: es => txStateAfter txPin mode level es
  end.

Definition txState (n : ESP_CAN) (t : Trace) : PinMode * bool :=
  txStateAfter (_txPin n) OUTPUT HIGH (rev t).

(** The stuffing loops of [sendFrame] as a function on bit strings: the
    bits that go out for [bits] when the loop is entered with the given
    run counter and last polarity, and the counter and polarity it ends
    with. *)
Fixpoint stuffBits (bits : list bool) (consecutiveBits : Z) (lastBit : bool)
    : list bool * (Z * bool) :=
  match bits with
  | [] => ([], (consecutiveBits, lastBit))
  | bit :: bits' =>
    let consecutiveBits :=
      if eqb bit lastBit then consecutiveBits + 1 else 1 in
    if consecutiveBits =? 5 then
      let '(out, s) := stuffBits bits' 0 (negb bit) in
      (bit :: negb bit :: out, s)
    else
      let '(out, s) := stuffBits bits' consecutiveBits bit in
      (bit :: out, s)
  end.

(** The level of the bus in each bit period: the wired-AND of what this
    node drives and what the other nodes drive, [others k] being their
    level at the end of the period that brings the elapsed count to [k]. *)
Definition busLevels (others : nat -> bool) (w : list bool) : list bool :=
  imap (fun k b => b && others (S k)) w.

(** An idle bus, and a bus on which some node acknowledges in a given
    bit period. *)
Definition rx_idle : nat -> bool := fun _ => HIGH.
Definition rx_ack_at (slot : nat) : nat -> bool :=
  fun k => negb (Nat.eqb k slot).

(** ** Receiver *)

(** [acc = (acc << 1) | _rxBuffer[bitIndex++]], repeated [w] times, the
    accumulator being an unsigned integer that wraps as [wrap] says. *)
Fixpoint readBits (wrap : Z -> Z) (w : nat) (buf : list bool) (bitIndex : Z)
    (acc : Z) : Z :=
  match w with
  | O => acc
  | S k =>
    readBits wrap k buf (bitIndex + 1)
      (wrap (Z.lor (Z.shiftl acc 1) (b2z (nth (Z.to_nat bitIndex) buf false))))
  end.

(** The loop over the data bytes: byte [i] is cleared and then filled
    from the eight bits at [bitIndex]. *)
Fixpoint decodeData (buf : list bool) (count : nat) (i : nat) (bitIndex : Z)
    (data : list Z) : list Z :=
  match count with
  | O => data
  | S k =>
    decodeData buf k (S i) (bitIndex + 8)
      (<[i := readBits uint8 8 buf bitIndex 0]> data)
  end.

(** The DECODE FRAME block: the caller's frame after it, the received
    CRC, and the final [bitIndex]. *)
Definition decodeFrame (buf : list bool) (frame : CAN_Frame)
    : CAN_Frame * Z * Z :=
  let bitIndex := 0 in
  let id' := readBits uint32 11 buf bitIndex 0 in
  let bitIndex := bitIndex + 11 in
  let bitIndex := bitIndex + 3 in
  let dlc' := readBits uint8 4 buf bitIndex 0 in
  let bitIndex := bitIndex + 4 in
  let dlc' := if dlc' >? 8 then 8 else dlc' in
  let data' := decodeData buf (Z.to_nat dlc') 0 bitIndex (data frame) in
  let bitIndex := bitIndex + 8 * dlc' in
  let received_crc := readBits uint16 15 buf bitIndex 0 in
  let bitIndex := bitIndex + 15 in
  ({| id := id'; dlc := dlc'; data := data' |}, received_crc, bitIndex).

(** [readFrame(frame)]: [now] is what [micros()] returns and [level] what
    [digitalRead(_rxPin)] returns if the call gets that far. The result is
    [None] when the call writes outside [_rxBuffer], which is undefined
    behaviour in the source. The [int] counters are not wrapped: signed
    overflow is undefined too, and they stay far below it (see
    [rx_run_bounded]). *)
Definition readFrame (now : Z) (level : bool) (frame : CAN_Frame)
    (n : ESP_CAN) (t : Trace)
    : option (CAN_Read_Status * CAN_Frame * ESP_CAN * Trace) :=
  if is_bus_off n then Some (CAN_READ_NO_MSG, frame, n, t)
  else if uint32 (now - _lastSampleTime n) <? uint32 (_bitTimeUs n)
  then Some (CAN_READ_NO_MSG, frame, n, t)
  else
    let n := set_timing (_bitTimeUs n)
               (uint32 (_lastSampleTime n + _bitTimeUs n)) n in
    let currentBit := level in
    let t := EvDigitalRead (_rxPin n) level :: t in
    match _rxState n with
    | RX_STATE_IDLE =>
      if negb currentBit
      then Some (CAN_READ_NO_MSG, frame,
                 set_rx RX_STATE_SOF (_rxBuffer n) 0 1 LOW n, t)
      else Some (CAN_READ_NO_MSG, frame, n, t)
    | RX_STATE_SOF | RX_STATE_FRAME =>
      (* RX_STATE_SOF sets the sub-state to RX_STATE_FRAME and falls through *)
      let run :=
        if eqb currentBit (_lastBit n) then _consecutiveBits n + 1 else 1 in
      if run =? 5 then
        Some (CAN_READ_NO_MSG, frame,
              set_rx RX_STATE_FRAME (_rxBuffer n) (_rxBitCount n)
                0 (negb currentBit) n, t)
      else if (0 <=? _rxBitCount n) && (_rxBitCount n <? 128) then
        let buf := <[Z.to_nat (_rxBitCount n) := currentBit]> (_rxBuffer n) in
        let cnt := _rxBitCount n + 1 in
        if currentBit && (run >=? 7) then
          let n := set_rx RX_STATE_IDLE buf cnt run currentBit n in
          let '(frame, received_crc, bitIndex) := decodeFrame buf frame in
          let calculated_crc := calculateCRC buf (bitIndex - 15) in
          if calculated_crc =? received_crc then
            let t := EvDelayMicroseconds (_bitTimeUs n) :: t in
            let t := EvDigitalWrite (_txPin n) LOW :: t in
            let t := EvDelayMicroseconds (_bitTimeUs n) :: t in
            let t := EvDigitalWrite (_txPin n) HIGH :: t in
            Some (CAN_READ_MSG_OK, frame, handleSuccess false true n, t)
          else
            Some (CAN_READ_ERROR, frame, handleError false true n, t)
        else
          Some (CAN_READ_NO_MSG, frame,
                set_rx RX_STATE_FRAME buf cnt run currentBit n, t)
      else None
    end.

(** A host that calls [readFrame] once per input [(now, level)], keeping
    the status of every call. *)
Fixpoint readFrames (inputs : list (Z * bool)) (frame : CAN_Frame)
    (n : ESP_CAN) (t : Trace)
    : option (list CAN_Read_Status * CAN_Frame * ESP_CAN * Trace) :=
  match inputs with
  | [] => Some ([], frame, n, t)
  | (now, level) :: inputs' =>
    match readFrame now level frame n t with
    | None => None
    | Some (status, frame, n, t) =>
      match readFrames inputs' frame n t with
      | None => None
      | Some (statuses, frame, n, t) => Some (status :: statuses, frame, n, t)
      end
    end
  end.

(** One call per bit period, each made at the instant the next sample
    falls due. *)
Fixpoint sampleTimes (last bitTime : Z) (levels : list bool) : list (Z * bool) :=
  match levels with
  | [] => []
  | level :: levels' =>
    (last + bitTime, level) :: sampleTimes (last + bitTime) bitTime levels'
  end.

Definition sampleBus (levels : list bool) (frame : CAN_Frame) (n : ESP_CAN)
    (t : Trace) :=
  readFrames (sampleTimes (_lastSampleTime n) (_bitTimeUs n) levels) frame n t.

(** ** Specification-side definitions *)

(** The classification of a counter pair, as the data model states it:
    Bus-Off iff a counter exceeds 255; else Error-Passive iff a counter
    exceeds 127; else Error-Active. *)
Definition classified (n : ESP_CAN) : Prop :=
  (state n = CAN_STATE_BUS_OFF <-> (tec n > 255 \/ rec n > 255)) /\
  (state n = CAN_STATE_ERROR_PASSIVE <->
     ~ (tec n > 255 \/ rec n > 255) /\ (tec n > 127 \/ rec n > 127)) /\
  (state n = CAN_STATE_ERROR_ACTIVE <->
     ~ (tec n > 255 \/ rec n > 255) /\ ~ (tec n > 127 \/ rec n > 127)).

(** The node objects a host can obtain: built by the constructor, then
    used through [begin], [sendFrame] and [readFrame] with any inputs. *)
Inductive reachable : ESP_CAN -> Prop :=
| reach_new rxPin txPin raw :
    reachable (ESP_CAN_new rxPin txPin raw)
| reach_begin n baudrate now t n' t' :
    reachable n -> begin baudrate now n t = Some (n', t') -> reachable n'
| reach_send n rx frame t ok n' t' :
    reachable n -> sendFrame rx frame n t = (ok, n', t') -> reachable n'
| reach_read n now level frame t status frame' n' t' :
    reachable n ->
    readFrame now level frame n t = Some (status, frame', n', t') ->
    reachable n'.

(** [k] transmissions in a row on a bus read through [rx], each traced
    on its own. *)
Fixpoint sendRepeatedly (rx : nat -> bool) (frame : CAN_Frame) (k : nat)
    (n : ESP_CAN) : ESP_CAN :=
  match k with
  | O => n
  | S k' =>
    let '(_, n', _) := sendFrame rx frame n [] in
    sendRepeatedly rx frame k' n'
  end.

(** A call of [sendFrame] lost arbitration when the last thing it did
    was to drive a recessive bit, wait one bit time and read the bus
    dominant: that is the only return of [sendBit] after a read. *)
Definition arbitrationLost (t : Trace) : bool :=
  match t with
  | EvDigitalRead _ false :: EvDelayMicroseconds _ :: EvDigitalWrite _ true :: _ =>
    true
  | _ => false
  end.

(** No recessive bit of [bits] is overridden on the bus: the bits are
    sent one per bit period, the first being read back at [instant]
    elapsed periods, and wherever one is recessive the bus reads
    recessive too. *)
Fixpoint unopposed (rx : nat -> bool) (instant : nat) (bits : list bool)
    : bool :=
  match bits with
  | [] => true
  | bit :: bits' => (negb bit || rx instant) && unopposed rx (S instant) bits'
  end.

(** [hasRun k bits]: some [k] consecutive bits of [bits] have the same
    polarity. *)
Fixpoint hasRun (k : nat) (bits : list bool) : bool :=
  match bits with
  | [] => false
  | b :: rest =>
    ((k <=? length bits)%nat && forallb (eqb b) (take k bits)) || hasRun k rest
  end.

(** The stuffable region of a complete frame on the wire: everything but
    the CRC delimiter, the ACK slot, the ACK delimiter and the seven EOF
    bits that close it. *)
Definition stuffable (w : list bool) : list bool :=
  take (length w - 10) w.

(** CAN CRC-15 as the specification words it: register initialised to 0;
    per bit [x := ((reg >> 14) & 1) XOR b; reg := (reg << 1) & 0x7FFF;
    if x then reg := reg XOR 0x4599]; output masked with 0x7FFF. *)
Definition crc15_step (reg : Z) (b : bool) : Z :=
  let x := Z.lxor (Z.land (Z.shiftr reg 14) 1) (b2z b) in
  let reg := Z.land (Z.shiftl reg 1) 0x7FFF in
  if x =? 0 then reg else Z.lxor reg 0x4599.

Definition crc15 (bits : list bool) : Z :=
  Z.land (fold_left crc15_step bits 0) 0x7FFF.

(** The number a bit string denotes, most significant bit first. *)
Definition bitsValue (bits : list bool) : Z :=
  fold_left (fun acc b => 2 * acc + b2z b) bits 0.

(** The [w] entries of a buffer from index [start] on. *)
Definition slice (buf : list bool) (start w : nat) : list bool :=
  map (fun k => nth k buf false) (seq start w).

(** The run counter of the receiver, between two calls, whenever a frame
    is being received. *)
Definition rx_run_bounded (n : ESP_CAN) : Prop :=
  _rxState n = RX_STATE_IDLE \/ 0 <= _consecutiveBits n <= 4.

(** A trace in which the TX pin [pin] is never written. *)
Definition neverDrives (pin : Z) (t : Trace) : Prop :=
  forall level, EvDigitalWrite pin level ∉ t.

(** Whether a trace drives the pin [pin] dominant at some point. *)
Definition drivesDominant (pin : Z) (t : Trace) : bool :=
  existsb (fun e => bool_decide (e = EvDigitalWrite pin LOW)) t.

(** The statuses a host has seen and the frame object it holds. *)
Definition seen (r : option (list CAN_Read_Status * CAN_Frame * ESP_CAN * Trace))
    : option (list CAN_Read_Status * CAN_Frame) :=
  match r with
  | Some (statuses, frame, _, _) => Some (statuses, frame)
  | None => None
  end.

(** The fifteen CRC bits [sendFrame] appends to a frame. *)
Definition crcBits (frame : CAN_Frame) : list bool :=
  bits_msb 15 (calculateCRC (frame_bits frame)
                 (Z.of_nat (length (frame_bits frame)))).

(** The bits of the arbitration window as they go out: identifier to
    data, stuffed. *)
Definition stuffedArbitration (frame : CAN_Frame) : list bool :=
  (stuffBits (frame_bits frame) 0 LOW).1.

(** Everything between the SOF and the CRC delimiter as it goes out. *)
Definition stuffedFrame (frame : CAN_Frame) : list bool :=
  (stuffBits (frame_bits frame ++ crcBits frame) 0 LOW).1.

(** The number of bit periods elapsed when the transmitter reads its ACK
    slot: the SOF, the stuffed bits, the CRC delimiter and the slot. *)
Definition ackInstant (frame : CAN_Frame) : nat :=
  (length (stuffedFrame frame) + 3)%nat.

(** A receiver inside a frame, between two calls. *)
Definition inFrame (n : ESP_CAN) : Prop :=
  _rxState n <> RX_STATE_IDLE
  /\ 0 <= _consecutiveBits n <= 4 /\ 0 <= _rxBitCount n <= 128.

(** ** Scenario values *)

(** Zeroed storage for a node object. *)
Definition blank : ESP_CAN :=
  {| tec := 0; rec := 0; state := CAN_STATE_ERROR_ACTIVE;
     _rxPin := 0; _txPin := 0; _bitTimeUs := 0; _lastSampleTime := 0;
     _rxState := RX_STATE_IDLE; _rxBuffer := repeat false 128;
     _rxBitCount := 0; _consecutiveBits := 0; _lastBit := false |}.

(** A node on pins 5 (RX) and 4 (TX), configured for 125 kbit/s at
    time 1000. *)
Definition node125k : ESP_CAN :=
  match begin 125000 1000 (ESP_CAN_new 5 4 blank) [] with
  | Some (n, _) => n
  | None => blank
  end.

(** The frame of the sender sketch. *)
Definition frameS1 : CAN_Frame :=
  {| id := 0x123; dlc := 4;
     data := [0xDE; 0xAD; 0xBE; 0xEF; 0; 0; 0; 0] |}.

(** The all-zero frame. *)
Definition frameZero : CAN_Frame :=
  {| id := 0; dlc := 0; data := [0; 0; 0; 0; 0; 0; 0; 0] |}.

(** A frame whose first identifier bit is recessive. *)
Definition frame400 : CAN_Frame :=
  {| id := 0x400; dlc := 0; data := [0; 0; 0; 0; 0; 0; 0; 0] |}.

(** A node that has failed sixteen transmissions for lack of an ACK. *)
Definition nodePassive : ESP_CAN :=
  sendRepeatedly rx_idle frameS1 16 (ESP_CAN_new 5 4 blank).


(** A caller's frame object, to be overwritten by the receiver. *)
Definition frameOld : CAN_Frame :=
  {| id := 0x7FF; dlc := 3; data := [1; 2; 3; 4; 5; 6; 7; 8] |}.

(** ** Fault confinement: lemmas *)

Lemma updateState_tec n : tec (updateState n) = tec n.
Proof. unfold updateState. repeat case_match; reflexivity. Qed.

Lemma updateState_rec n : rec (updateState n) = rec n.
Proof. unfold updateState. repeat case_match; reflexivity. Qed.

Lemma updateState_classified n : classified (updateState n).
Proof.
  unfold classified, updateState.
  destruct (tec n >? 255) eqn:Ht1; destruct (rec n >? 255) eqn:Hr1;
    destruct (tec n >? 127) eqn:Ht2; destruct (rec n >? 127) eqn:Hr2;
    cbn [orb set_state state tec rec];
    repeat split; intros; try discriminate; try lia;
    try (exfalso; lia).
Qed.

Lemma handleError_classified tx rx n : classified (handleError tx rx n).
Proof. unfold handleError. apply updateState_classified. Qed.

Lemma handleSuccess_classified tx rx n : classified (handleSuccess tx rx n).
Proof. unfold handleSuccess. apply updateState_classified. Qed.

Lemma is_bus_off_false n :
  is_bus_off n = false <-> state n <> CAN_STATE_BUS_OFF.
Proof. unfold is_bus_off. rewrite bool_decide_eq_false. reflexivity. Qed.

Lemma is_bus_off_true n :
  is_bus_off n = true <-> state n = CAN_STATE_BUS_OFF.
Proof. unfold is_bus_off. rewrite bool_decide_eq_true. reflexivity. Qed.

(** A transmit failure adds 8 to a [uint8_t], so the counter wraps. *)
Lemma handleError_tx_tec n :
  state n <> CAN_STATE_BUS_OFF ->
  tec (handleError true false n) = (tec n + 8) mod 256.
Proof.
  intros H. apply is_bus_off_false in H. unfold handleError.
  rewrite H. cbn [andb negb]. rewrite updateState_tec. reflexivity.
Qed.

Lemma handleError_tx_rec n : rec (handleError true false n) = rec n.
Proof.
  unfold handleError. cbn [andb]. rewrite updateState_rec.
  destruct (is_bus_off n); reflexivity.
Qed.

(** With eight-bit counters the Bus-Off test of [updateState] cannot
    succeed. *)
Lemma updateState_not_bus_off n :
  0 <= tec n < 256 -> 0 <= rec n < 256 ->
  state (updateState n) <> CAN_STATE_BUS_OFF.
Proof.
  intros Ht Hr. unfold updateState.
  replace (tec n >? 255) with false by lia.
  replace (rec n >? 255) with false by lia.
  cbn [orb]. case_match; cbn; discriminate.
Qed.

Lemma updateState_state_range n :
  0 <= tec n < 256 -> 0 <= rec n < 256 ->
  state (updateState n) =
    if (tec n >? 127) || (rec n >? 127)
    then CAN_STATE_ERROR_PASSIVE else CAN_STATE_ERROR_ACTIVE.
Proof.
  intros Ht Hr. unfold updateState.
  replace (tec n >? 255) with false by lia.
  replace (rec n >? 255) with false by lia.
  cbn [orb]. case_match; reflexivity.
Qed.

(** ** Transmitter: lemmas *)

Section TransmitterFacts.

Variable rx : nat -> bool.

Lemma sendBit_unchecked n bit t :
  is_bus_off n = false ->
  sendBit rx n bit false t =
    (true, EvDelayMicroseconds (_bitTimeUs n) :: EvDigitalWrite (_txPin n) bit :: t).
Proof. intros H. unfold sendBit. rewrite H. reflexivity. Qed.

(** A bit sent with the arbitration check either goes through, leaving
    a trace that does not end in a lost arbitration, or is the lost
    arbitration itself. *)
Lemma sendBit_checked n bit t ok t' :
  is_bus_off n = false ->
  sendBit rx n bit true t = (ok, t') ->
  arbitrationLost t' = negb ok.
Proof.
  intros H. unfold sendBit. rewrite H. cbn [andb].
  destruct bit.
  - destruct (rx _) eqn:Hrx; cbn [negb]; intros [= <- <-]; cbn;
      rewrite ?Hrx; reflexivity.
  - intros [= <- <-]. reflexivity.
Qed.

Lemma sendBit_any n bit chk t ok t' :
  is_bus_off n = false ->
  sendBit rx n bit chk t = (ok, t') ->
  arbitrationLost t' = negb ok.
Proof.
  intros H. destruct chk.
  - apply sendBit_checked; assumption.
  - rewrite sendBit_unchecked by assumption. intros [= <- <-]. reflexivity.
Qed.

(** The stuffing loop stops early exactly on a lost arbitration. *)
Lemma sendStuffed_arbitration n chk bits :
  is_bus_off n = false ->
  forall c l t r t',
    arbitrationLost t = false ->
    sendStuffed rx n chk bits c l t = (r, t') ->
    arbitrationLost t' = bool_decide (r = None).
Proof.
  intros Hoff. induction bits as [|b bits IH]; intros c l t r t' Ht.
  - cbn. intros [= <- <-]. rewrite Ht. reflexivity.
  - cbn [sendStuffed].
    destruct (sendBit rx n b chk t) as [ok1 t1] eqn:E1.
    pose proof (sendBit_any _ _ _ _ _ _ Hoff E1) as A1.
    destruct ok1; [|intros [= <- <-]; rewrite A1; reflexivity].
    destruct (_ =? 5).
    + destruct (sendBit rx n (negb b) chk t1) as [ok2 t2] eqn:E2.
      pose proof (sendBit_any _ _ _ _ _ _ Hoff E2) as A2.
      destruct ok2; [|intros [= <- <-]; rewrite A2; reflexivity].
      apply IH. exact A2.
    + apply IH. exact A1.
Qed.

(** Without the arbitration check the loop runs to its end. *)
Lemma sendStuffed_unchecked n bits :
  is_bus_off n = false ->
  forall c l t, exists s t', sendStuffed rx n false bits c l t = (Some s, t').
Proof.
  intros Hoff. induction bits as [|b bits IH]; intros c l t.
  - cbn. eauto.
  - cbn [sendStuffed]. rewrite !sendBit_unchecked by assumption.
    destruct (_ =? 5); apply IH.
Qed.

(** The ways a call of [sendFrame] can end: refused in Bus-Off, lost
    arbitration, no acknowledgement, or success. *)
Lemma sendFrame_cases frame n t ok n' t' :
  sendFrame rx frame n t = (ok, n', t') ->
  (is_bus_off n = true /\ ok = false /\ n' = n /\ t' = t)
  \/ (is_bus_off n = false /\ ok = false
      /\ n' = handleError true false n /\ arbitrationLost t' = true)
  \/ (is_bus_off n = false /\ ok = false
      /\ n' = handleError true false n /\ arbitrationLost t' = false)
  \/ (is_bus_off n = false /\ ok = true
      /\ n' = handleSuccess true false n /\ arbitrationLost t' = false).
Proof.
  unfold sendFrame. destruct (is_bus_off n) eqn:Hoff.
  { intros [= <- <- <-]. left. auto. }
  rewrite sendBit_unchecked by assumption.
  destruct (sendStuffed rx n true _ _ _ _) as [r t1] eqn:E1.
  apply sendStuffed_arbitration in E1; [|assumption|reflexivity].
  destruct r as [[c l]|];
    [|intros [= <- <- <-]; right; left; auto].
  destruct (sendStuffed_unchecked n
              (bits_msb 15 (calculateCRC (frame_bits frame)
                 (Z.of_nat (length (frame_bits frame))))) Hoff c l t1)
    as (s & t2 & E2).
  rewrite E2. rewrite sendBit_unchecked by assumption.
  cbn [ackSlot]. destruct (negb (negb _)).
  - intros [= <- <- <-]. right; right; left. auto.
  - intros E. injection E as <- <- <-. right; right; right.
    repeat split; try reflexivity.
    rewrite !sendBit_unchecked by assumption. reflexivity.
Qed.

End TransmitterFacts.

(** On an idle bus nobody overrides a recessive bit and nobody
    acknowledges: every transmission ends in the no-ACK failure. *)
Lemma sendBit_idle n bit chk t :
  is_bus_off n = false ->
  exists t', sendBit rx_idle n bit chk t = (true, t').
Proof.
  intros H. unfold sendBit. rewrite H.
  destruct (chk && bit); cbn; eauto.
Qed.

Lemma sendStuffed_idle n chk bits :
  is_bus_off n = false ->
  forall c l t, exists s t',
    sendStuffed rx_idle n chk bits c l t = (Some s, t').
Proof.
  intros Hoff. induction bits as [|b bits IH]; intros c l t.
  - cbn. eauto.
  - cbn [sendStuffed].
    destruct (sendBit_idle n b chk t Hoff) as [t1 ->].
    destruct (_ =? 5); [|apply IH].
    destruct (sendBit_idle n (negb b) chk t1 Hoff) as [t2 ->]. apply IH.
Qed.

Lemma sendFrame_idle frame n t :
  is_bus_off n = false ->
  exists t', sendFrame rx_idle frame n t = (false, handleError true false n, t').
Proof.
  intros Hoff. unfold sendFrame. rewrite Hoff.
  rewrite sendBit_unchecked by assumption.
  destruct (sendStuffed_idle n true (frame_bits frame) Hoff 0 LOW
              (EvDelayMicroseconds (_bitTimeUs n)
                 :: EvDigitalWrite (_txPin n) LOW :: t))
    as ([c l] & t1 & ->).
  destruct (sendStuffed_idle n false
              (bits_msb 15 (calculateCRC (frame_bits frame)
                 (Z.of_nat (length (frame_bits frame))))) Hoff c l t1)
    as (s & t2 & ->).
  rewrite sendBit_unchecked by assumption.
  cbn. eauto.
Qed.

(** [k] failures for lack of an ACK in a row: the eight-bit counter has
    gone up by [8 * k] modulo 256, and the node is never Bus-Off. *)
Lemma sendRepeatedly_idle frame k :
  forall n,
    state n <> CAN_STATE_BUS_OFF ->
    0 <= tec n < 256 -> 0 <= rec n < 256 ->
    let n' := sendRepeatedly rx_idle frame k n in
    tec n' = (tec n + 8 * Z.of_nat k) mod 256
    /\ rec n' = rec n
    /\ state n' <> CAN_STATE_BUS_OFF
    /\ (k <> 0%nat ->
        state n' = if tec n' >? 127 then CAN_STATE_ERROR_PASSIVE
                   else if rec n' >? 127 then CAN_STATE_ERROR_PASSIVE
                   else CAN_STATE_ERROR_ACTIVE).
Proof.
  induction k as [|k IH]; intros n Hs Ht Hr.
  - cbn. rewrite Z.add_0_r, Z.mod_small by lia. repeat split; auto.
    intros []; reflexivity.
  - cbn [sendRepeatedly].
    destruct (sendFrame_idle frame n [] (proj2 (is_bus_off_false n) Hs))
      as [t' ->].
    set (m := handleError true false n).
    assert (Htm : tec m = (tec n + 8) mod 256)
      by (apply handleError_tx_tec; assumption).
    assert (Hrm : rec m = rec n) by apply handleError_tx_rec.
    assert (Hbt : 0 <= tec m < 256) by (rewrite Htm; apply Z.mod_pos_bound; lia).
    assert (Hsm : state m <> CAN_STATE_BUS_OFF).
    { unfold m, handleError. apply is_bus_off_false in Hs. rewrite Hs.
      cbn [andb negb]. apply updateState_not_bus_off; cbn; [|lia].
      apply Z.mod_pos_bound; lia. }
    assert (Hcm : state m = if tec m >? 127 then CAN_STATE_ERROR_PASSIVE
                   else if rec m >? 127 then CAN_STATE_ERROR_PASSIVE
                   else CAN_STATE_ERROR_ACTIVE).
    { unfold m at 1. unfold handleError.
      apply is_bus_off_false in Hs. rewrite Hs. cbn [andb negb].
      rewrite updateState_state_range; cbn [tec rec set_tec];
        [|apply Z.mod_pos_bound; lia|lia].
      rewrite Htm, Hrm. unfold uint8.
      destruct (_ >? 127); [reflexivity|]. destruct (_ >? 127); reflexivity. }
    destruct (IH m Hsm Hbt ltac:(lia)) as (I1 & I2 & I3 & I4).
    cbv zeta. repeat split.
    + rewrite I1, Htm. rewrite Zplus_mod_idemp_l. f_equal. lia.
    + congruence.
    + exact I3.
    + intros _. destruct k as [|k]; [exact Hcm|]. apply I4. discriminate.
Qed.

(** ** Receiver: lemmas *)

Lemma classified_ext n n' :
  tec n' = tec n -> rec n' = rec n -> state n' = state n ->
  classified n -> classified n'.
Proof. unfold classified. intros -> -> ->. tauto. Qed.

(** Whatever the receiver does, it leaves the state classified. *)
Lemma readFrame_classified now level frame n t status frame' n' t' :
  classified n ->
  readFrame now level frame n t = Some (status, frame', n', t') ->
  classified n'.
Proof.
  intros Hc. unfold readFrame.
  repeat case_match; intros [= <- <- <- <-];
    first [ exact Hc
          | apply handleSuccess_classified
          | apply handleError_classified
          | (eapply classified_ext; [..|exact Hc]; reflexivity) ].
Qed.

(** Between calls the run counter of a frame in progress lies in 0..4:
    the end-of-frame test, which asks for a run of seven, is evaluated
    only after the run of five has returned, so a receiver that started
    from the constructor reports no message on every call, keeps the
    caller's frame and the fault state, and only ever reads its pin. *)
Lemma readFrame_quiet now level frame n t status frame' n' t' :
  rx_run_bounded n ->
  readFrame now level frame n t = Some (status, frame', n', t') ->
  status = CAN_READ_NO_MSG /\ frame' = frame /\ rx_run_bounded n'
  /\ tec n' = tec n /\ rec n' = rec n /\ state n' = state n
  /\ _rxPin n' = _rxPin n /\ _txPin n' = _txPin n
  /\ (t' = t \/ t' = EvDigitalRead (_rxPin n) level :: t).
Proof.
  unfold rx_run_bounded, readFrame. intros Hb.
  destruct (is_bus_off n); [intros [= <- <- <- <-]; auto 10|].
  destruct (_ <? _); [intros [= <- <- <- <-]; auto 10|].
  cbn [_rxState set_timing _lastBit _consecutiveBits _rxBitCount _rxBuffer
       _rxPin _txPin _bitTimeUs].
  destruct (_rxState n) eqn:Hst.
  - destruct level; cbn [negb]; intros [= <- <- <- <-]; cbn; auto 10.
    repeat split; auto. right. lia.
  - destruct Hb as [Hb|Hb]; [congruence|].
    destruct (eqb level (_lastBit n)).
    + destruct (_ =? 5) eqn:E5.
      { intros [= <- <- <- <-]. cbn. repeat split; auto. right; lia. }
      destruct (_ && _); [|discriminate].
      replace (_consecutiveBits n + 1 >=? 7) with false by lia.
      rewrite andb_false_r. intros [= <- <- <- <-]. cbn.
      repeat split; auto. right; lia.
    + cbn [Z.eqb Pos.eqb]. destruct (_ && _); [|discriminate].
      cbn [Z.geb Z.compare Pos.compare Pos.compare_cont]. rewrite andb_false_r.
      intros [= <- <- <- <-]. cbn. repeat split; auto. right; lia.
  - destruct Hb as [Hb|Hb]; [congruence|].
    destruct (eqb level (_lastBit n)).
    + destruct (_ =? 5) eqn:E5.
      { intros [= <- <- <- <-]. cbn. repeat split; auto. right; lia. }
      destruct (_ && _); [|discriminate].
      replace (_consecutiveBits n + 1 >=? 7) with false by lia.
      rewrite andb_false_r. intros [= <- <- <- <-]. cbn.
      repeat split; auto. right; lia.
    + cbn [Z.eqb Pos.eqb]. destruct (_ && _); [|discriminate].
      cbn [Z.geb Z.compare Pos.compare Pos.compare_cont]. rewrite andb_false_r.
      intros [= <- <- <- <-]. cbn. repeat split; auto. right; lia.
Qed.

Lemma readFrames_quiet inputs :
  forall frame n t statuses frame' n' t',
    rx_run_bounded n ->
    readFrames inputs frame n t = Some (statuses, frame', n', t') ->
    Forall (eq CAN_READ_NO_MSG) statuses /\ frame' = frame
    /\ rx_run_bounded n'
    /\ tec n' = tec n /\ rec n' = rec n /\ state n' = state n
    /\ _txPin n' = _txPin n
    /\ (neverDrives (_txPin n) t -> neverDrives (_txPin n) t').
Proof.
  induction inputs as [|[now level] inputs IH];
    intros frame n t statuses frame' n' t' Hb.
  - cbn. intros [= <- <- <- <-]. repeat split; auto.
  - cbn [readFrames].
    destruct (readFrame now level frame n t) as [[[[s1 f1] n1] t1]|] eqn:E1;
      [|discriminate].
    destruct (readFrames inputs f1 n1 t1) as [[[[ss f2] n2] t2]|] eqn:E2;
      [|discriminate].
    intros [= <- <- <- <-].
    destruct (readFrame_quiet _ _ _ _ _ _ _ _ _ Hb E1)
      as (-> & -> & Hb1 & Ht1 & Hr1 & Hs1 & Hp1 & Hq1 & Htr).
    destruct (IH _ _ _ _ _ _ _ Hb1 E2)
      as (Hall & -> & Hb2 & Ht2 & Hr2 & Hs2 & Hq2 & Hnd).
    repeat split; auto; try congruence.
    intros Hn. rewrite <- Hq1. apply Hnd. rewrite Hq1.
    destruct Htr as [->| ->]; [exact Hn|].
    intros lv Hin. apply elem_of_cons in Hin as [Hin|Hin]; [discriminate|].
    exact (Hn lv Hin).
Qed.

Lemma ESP_CAN_new_bounded rxPin txPin raw :
  rx_run_bounded (ESP_CAN_new rxPin txPin raw).
Proof. left. reflexivity. Qed.

(** ** CRC engine: lemmas *)

Lemma land_7FFF x : Z.land x 0x7FFF = x mod 2 ^ 15.
Proof. change 0x7FFF with (Z.ones 15). apply Z.land_ones. lia. Qed.

(** Bit 14 of the register, as the source and as the specification
    extract it. *)
Lemma crc_top_bit c :
  Z.shiftr (Z.land c 0x4000) 14 = Z.land (Z.shiftr (Z.land c 0x7FFF) 14) 1.
Proof.
  apply Z.bits_inj'. intros i Hi.
  rewrite Z.shiftr_spec, !Z.land_spec, Z.shiftr_spec, Z.land_spec by lia.
  destruct (Z.eq_dec i 0) as [->|Hne].
  - destruct (Z.testbit c (0 + 14)); reflexivity.
  - rewrite (Z.bits_above_log2 0x4000 (i + 14)) by (cbn; lia).
    rewrite (Z.bits_above_log2 1 i) by (cbn; lia).
    rewrite !andb_false_r. reflexivity.
Qed.

Lemma uint16_mod15 y : uint16 y mod 2 ^ 15 = y mod 2 ^ 15.
Proof.
  unfold uint16. apply Z.mod_mod_divide. exists 2. lia.
Qed.

Lemma land_lxor_distr a b m :
  Z.land (Z.lxor a b) m = Z.lxor (Z.land a m) (Z.land b m).
Proof.
  apply Z.bits_inj'. intros i _.
  rewrite Z.land_spec, !Z.lxor_spec, !Z.land_spec.
  destruct (Z.testbit a i), (Z.testbit b i), (Z.testbit m i); reflexivity.
Qed.

(** The sixteenth bit the source keeps in its register never feeds back:
    modulo 2^15 the two steps agree. *)
Lemma crc_step_refines c b :
  Z.land (crc_step c b) 0x7FFF = crc15_step (Z.land c 0x7FFF) b.
Proof.
  unfold crc_step, crc15_step. rewrite <- crc_top_bit.
  assert (Hshift : Z.land (uint16 (Z.shiftl c 1)) 0x7FFF
                   = Z.land (Z.shiftl (Z.land c 0x7FFF) 1) 0x7FFF).
  { rewrite !land_7FFF, uint16_mod15. rewrite !Z.shiftl_mul_pow2 by lia.
    rewrite Z.mul_mod_idemp_l by lia. reflexivity. }
  destruct (_ =? 0); cbn [negb]; [exact Hshift|].
  rewrite land_7FFF, uint16_mod15, <- land_7FFF.
  rewrite land_lxor_distr. rewrite Hshift. reflexivity.
Qed.

Lemma crc_fold_refines bits :
  forall c,
    Z.land (fold_left crc_step bits c) 0x7FFF
    = fold_left crc15_step bits (Z.land c 0x7FFF).
Proof.
  induction bits as [|b bits IH]; intros c; [reflexivity|].
  cbn [fold_left]. rewrite IH, crc_step_refines. reflexivity.
Qed.

(** [calculateCRC] over a whole bit sequence is the specification's
    CRC-15 of that sequence. *)
Lemma calculateCRC_crc15 bits :
  calculateCRC bits (Z.of_nat (length bits)) = crc15 bits.
Proof.
  unfold calculateCRC, crc15.
  rewrite Nat2Z.id, firstn_all.
  pose proof (crc_fold_refines bits 0) as H.
  change (Z.land 0 0x7FFF) with 0 in H.
  rewrite H. rewrite <- H. rewrite <- Z.land_assoc. reflexivity.
Qed.

Lemma crc15_range bits : 0 <= crc15 bits < 2 ^ 15.
Proof. unfold crc15. rewrite land_7FFF. apply Z.mod_pos_bound. lia. Qed.

(** A leading dominant bit (the SOF) leaves the zero register at zero. *)
Lemma crc15_sof bits : crc15 (false :: bits) = crc15 bits.
Proof. reflexivity. Qed.

(** ** Bit strings: lemmas *)

Lemma bitsValue_fold bits :
  forall acc,
    fold_left (fun a b => 2 * a + b2z b) bits acc
    = acc * 2 ^ Z.of_nat (length bits) + bitsValue bits.
Proof.
  unfold bitsValue.
  induction bits as [|b bits IH]; intros acc.
  - cbn. lia.
  - cbn [fold_left length]. rewrite IH, (IH (2 * 0 + b2z b)).
    rewrite Nat2Z.inj_succ, Z.pow_succ_r by lia. lia.
Qed.

Lemma bitsValue_cons b bits :
  bitsValue (b :: bits) = b2z b * 2 ^ Z.of_nat (length bits) + bitsValue bits.
Proof.
  unfold bitsValue at 1. cbn [fold_left]. rewrite bitsValue_fold. lia.
Qed.

Lemma bits_msb_length w x : length (bits_msb w x) = w.
Proof. induction w as [|w IH]; cbn; congruence. Qed.

Lemma bit_at_div x k :
  0 <= k -> b2z (bit_at x k) = (x / 2 ^ k) mod 2.
Proof.
  intros Hk. unfold bit_at. rewrite Z.shiftr_div_pow2 by lia.
  change 1 with (Z.ones 1). rewrite Z.land_ones by lia.
  change (2 ^ 1) with 2.
  pose proof (Z.mod_pos_bound (x / 2 ^ k) 2 ltac:(lia)).
  destruct (_ =? 0) eqn:E; cbn; lia.
Qed.

(** The [w] bits sent for a value, most significant first, denote the
    value modulo 2^w. *)
Lemma bits_msb_value w x : bitsValue (bits_msb w x) = x mod 2 ^ Z.of_nat w.
Proof.
  induction w as [|w IH].
  - cbn. rewrite Z.mod_1_r. reflexivity.
  - cbn [bits_msb]. rewrite bitsValue_cons, bits_msb_length, IH.
    rewrite bit_at_div by lia.
    rewrite Nat2Z.inj_succ, Z.pow_succ_r by lia.
    rewrite (Z.mul_comm 2), Z.rem_mul_r by lia. lia.
Qed.

(** ** Frame decoding: lemmas *)

Lemma lor_shift_bit acc b :
  0 <= acc -> Z.lor (Z.shiftl acc 1) (b2z b) = 2 * acc + b2z b.
Proof.
  intros H. destruct acc as [|p|p]; [destruct b; reflexivity| |lia].
  destruct b; cbn; reflexivity.
Qed.

Lemma slice_S buf s k :
  slice buf s (S k) = nth s buf false :: slice buf (S s) k.
Proof. reflexivity. Qed.

Lemma slice_length buf s k : length (slice buf s k) = k.
Proof. unfold slice. rewrite length_map, length_seq. reflexivity. Qed.

(** Shifting bits into an accumulator that has room for them reads the
    number they denote. *)
Lemma readBits_value (wrap : Z -> Z) (M : Z) buf :
  (forall x, 0 <= x < M -> wrap x = x) ->
  forall w bitIndex acc,
    0 <= bitIndex -> 0 <= acc -> (acc + 1) * 2 ^ Z.of_nat w <= M ->
    readBits wrap w buf bitIndex acc
    = acc * 2 ^ Z.of_nat w + bitsValue (slice buf (Z.to_nat bitIndex) w).
Proof.
  intros Hwrap. induction w as [|w IH]; intros bitIndex acc Hi Hacc HM.
  - cbn. lia.
  - cbn [readBits]. rewrite lor_shift_bit by assumption.
    rewrite Nat2Z.inj_succ, Z.pow_succ_r in HM by lia.
    set (b := nth (Z.to_nat bitIndex) buf false).
    assert (0 <= b2z b <= 1) by (destruct b; cbn; lia).
    assert (0 < 2 ^ Z.of_nat w) by (apply Z.pow_pos_nonneg; lia).
    rewrite Hwrap by nia.
    rewrite IH by nia.
    rewrite slice_S, bitsValue_cons, slice_length.
    replace (Z.to_nat (bitIndex + 1)) with (S (Z.to_nat bitIndex)) by lia.
    fold b. rewrite Nat2Z.inj_succ, Z.pow_succ_r by lia. lia.
Qed.

Lemma readBits_uint8 buf w bitIndex :
  (w <= 8)%nat -> 0 <= bitIndex ->
  readBits uint8 w buf bitIndex 0 = bitsValue (slice buf (Z.to_nat bitIndex) w).
Proof.
  intros Hw Hi.
  rewrite (readBits_value uint8 256); try lia.
  - intros x Hx. apply Z.mod_small. exact Hx.
  - rewrite Z.mul_1_l. change 256 with (2 ^ Z.of_nat 8).
    apply Z.pow_le_mono_r; lia.
Qed.

Lemma readBits_uint32 buf w bitIndex :
  (w <= 32)%nat -> 0 <= bitIndex ->
  readBits uint32 w buf bitIndex 0 = bitsValue (slice buf (Z.to_nat bitIndex) w).
Proof.
  intros Hw Hi.
  rewrite (readBits_value uint32 4294967296); try lia.
  - intros x Hx. apply Z.mod_small. exact Hx.
  - rewrite Z.mul_1_l. change 4294967296 with (2 ^ Z.of_nat 32).
    apply Z.pow_le_mono_r; lia.
Qed.

Lemma bitsValue_bound bits : 0 <= bitsValue bits < 2 ^ Z.of_nat (length bits).
Proof.
  induction bits as [|b bits IH].
  - cbn. lia.
  - rewrite bitsValue_cons. cbn [length].
    rewrite Nat2Z.inj_succ, Z.pow_succ_r by lia.
    destruct b; cbn [b2z]; lia.
Qed.

(** The data loop fills bytes [i .. i + count - 1], each from its own
    eight bits, and leaves the length of the array alone. *)
Lemma decodeData_spec buf count :
  forall i bitIndex (data : list Z),
    0 <= bitIndex -> (i + count <= length data)%nat ->
    let data' := decodeData buf count i bitIndex data in
    length data' = length data
    /\ (forall k, (k < i)%nat -> data' !! k = data !! k)
    /\ (forall j, (j < count)%nat ->
          data' !! (i + j)%nat
          = Some (bitsValue (slice buf (Z.to_nat bitIndex + 8 * j) 8))).
Proof.
  induction count as [|count IH]; intros i bitIndex data Hi Hlen.
  - cbn. repeat split; auto. intros j Hj. lia.
  - cbn [decodeData].
    set (v := readBits uint8 8 buf bitIndex 0).
    destruct (IH (S i) (bitIndex + 8) (<[i:=v]> data) ltac:(lia)
                ltac:(rewrite length_insert; lia)) as (L & Before & Written).
    rewrite length_insert in L. cbv zeta. repeat split.
    + exact L.
    + intros k Hk. rewrite Before by lia.
      apply list_lookup_insert_ne. lia.
    + intros [|j] Hj.
      * rewrite Nat.add_0_r, Before by lia.
        rewrite list_lookup_insert_eq by lia.
        unfold v. rewrite readBits_uint8 by lia.
        do 3 f_equal. lia.
      * replace (i + S j)%nat with (S i + j)%nat by lia.
        rewrite Written by lia. do 3 f_equal. lia.
Qed.

(** What the DECODE FRAME block leaves in the caller's frame. *)
Lemma decodeFrame_spec buf frame :
  length (data frame) = 8%nat ->
  let frame' := (decodeFrame buf frame).1.1 in
  id frame' = bitsValue (slice buf 0 11)
  /\ dlc frame' = Z.min 8 (bitsValue (slice buf 14 4))
  /\ (forall i, (i < Z.to_nat (dlc frame'))%nat ->
        data frame' !! i = Some (bitsValue (slice buf (18 + 8 * i) 8))).
Proof.
  intros Hlen. unfold decodeFrame. cbn [fst id dlc data].
  rewrite readBits_uint32, readBits_uint8 by lia.
  change (Z.to_nat 0) with 0%nat. change (Z.to_nat (0 + 11 + 3)) with 14%nat.
  set (d := bitsValue (slice buf 14 4)).
  pose proof (bitsValue_bound (slice buf 14 4)) as Hd.
  rewrite slice_length in Hd. fold d in Hd.
  assert (Hclamp : (if d >? 8 then 8 else d) = Z.min 8 d)
    by (destruct (d >? 8) eqn:E; lia).
  rewrite Hclamp. repeat split.
  intros i Hi.
  destruct (decodeData_spec buf (Z.to_nat (Z.min 8 d)) 0 (0 + 11 + 3 + 4)
              (data frame) ltac:(lia) ltac:(lia)) as (_ & _ & W).
  specialize (W i Hi). cbn [Nat.add] in W. rewrite W.
  reflexivity.
Qed.

Lemma handleError_rxBuffer tx rx n :
  _rxBuffer (handleError tx rx n) = _rxBuffer n.
Proof. unfold handleError, updateState. repeat case_match; reflexivity. Qed.

Lemma handleSuccess_rxBuffer tx rx n :
  _rxBuffer (handleSuccess tx rx n) = _rxBuffer n.
Proof. unfold handleSuccess, updateState. repeat case_match; reflexivity. Qed.

Lemma begin_fault baudrate now n t n' t' :
  begin baudrate now n t = Some (n', t') ->
  tec n' = tec n /\ rec n' = rec n /\ state n' = state n
  /\ _rxState n' = _rxState n /\ _consecutiveBits n' = _consecutiveBits n.
Proof.
  unfold begin. destruct (baudrate =? 0); [discriminate|].
  intros [= <- <-]. repeat split.
Qed.

(** A transmission does not touch the receiver's working set. *)
Lemma handleError_rx tx rx n :
  _rxState (handleError tx rx n) = _rxState n
  /\ _consecutiveBits (handleError tx rx n) = _consecutiveBits n.
Proof. unfold handleError, updateState. repeat case_match; split; reflexivity. Qed.

Lemma handleSuccess_rx tx rx n :
  _rxState (handleSuccess tx rx n) = _rxState n
  /\ _consecutiveBits (handleSuccess tx rx n) = _consecutiveBits n.
Proof. unfold handleSuccess, updateState. repeat case_match; split; reflexivity. Qed.

(** Every node a host can obtain has its run counter bounded, hence a
    receiver that never completes a frame. *)
Lemma reachable_rx_run_bounded n : reachable n -> rx_run_bounded n.
Proof.
  induction 1 as [rxPin txPin raw
                 |n baudrate now t n' t' _ IH Hb
                 |n rx frame t ok n' t' _ IH Hs
                 |n now level frame t status frame' n' t' _ IH Hr].
  - apply ESP_CAN_new_bounded.
  - apply begin_fault in Hb as (_ & _ & _ & Hst & Hrun).
    unfold rx_run_bounded in *. rewrite Hst, Hrun. exact IH.
  - unfold rx_run_bounded in *.
    apply sendFrame_cases in Hs
      as [(_ & _ & -> & _)|[(_ & _ & -> & _)|[(_ & _ & -> & _)|(_ & _ & -> & _)]]].
    + exact IH.
    + destruct (handleError_rx true false n) as [-> ->]. exact IH.
    + destruct (handleError_rx true false n) as [-> ->]. exact IH.
    + destruct (handleSuccess_rx true false n) as [-> ->]. exact IH.
  - eapply readFrame_quiet in Hr as (_ & _ & Hb & _); eassumption.
Qed.

(** ** The wire: lemmas *)

Lemma txLevels_app txPin events1 :
  forall mode level events2,
    txLevels txPin mode level (events1 ++ events2)
    = txLevels txPin mode level events1
      ++ txLevels txPin (txStateAfter txPin mode level events1).1
           (txStateAfter txPin mode level events1).2 events2.
Proof.
  induction events1 as [|e es IH]; intros mode level events2; [reflexivity|].
  destruct e as [p m|p l|us|p l]; cbn [app txLevels txStateAfter].
  - destruct (p =? txPin); apply IH.
  - destruct (p =? txPin); apply IH.
  - rewrite IH. reflexivity.
  - apply IH.
Qed.

Lemma txStateAfter_app txPin events1 :
  forall mode level events2,
    txStateAfter txPin mode level (events1 ++ events2)
    = txStateAfter txPin (txStateAfter txPin mode level events1).1
        (txStateAfter txPin mode level events1).2 events2.
Proof.
  induction events1 as [|e es IH]; intros mode level events2; [reflexivity|].
  destruct e as [p m|p l|us|p l]; cbn [app txStateAfter];
    try destruct (p =? txPin); apply IH.
Qed.

(** One more event at the head of a trace. *)
Lemma wire_cons n e t :
  wire n (e :: t)
  = wire n t ++ txLevels (_txPin n) (txState n t).1 (txState n t).2 [e].
Proof. unfold wire, txState. cbn [rev]. apply txLevels_app. Qed.

Lemma txState_cons n e t :
  txState n (e :: t)
  = txStateAfter (_txPin n) (txState n t).1 (txState n t).2 [e].
Proof. unfold txState. cbn [rev]. apply txStateAfter_app. Qed.

Section WireFacts.

Variable rx : nat -> bool.

(** A bit sent while TX is an output appears on the wire as it is. *)
Lemma sendBit_wire n bit chk t ok t' :
  is_bus_off n = false ->
  (txState n t).1 = OUTPUT ->
  sendBit rx n bit chk t = (ok, t') ->
  wire n t' = wire n t ++ [bit] /\ (txState n t').1 = OUTPUT.
Proof.
  intros Hoff Hmode. unfold sendBit. rewrite Hoff.
  assert (Hstep :
    wire n (EvDelayMicroseconds (_bitTimeUs n) :: EvDigitalWrite (_txPin n) bit :: t)
    = wire n t ++ [bit]
    /\ (txState n (EvDelayMicroseconds (_bitTimeUs n)
                     :: EvDigitalWrite (_txPin n) bit :: t)).1 = OUTPUT).
  { split.
    - rewrite !wire_cons, txState_cons. cbn [txLevels txStateAfter].
      rewrite Z.eqb_refl. cbn [fst snd txLevels]. rewrite Hmode.
      rewrite app_nil_r. reflexivity.
    - rewrite !txState_cons. cbn [txStateAfter].
      rewrite Z.eqb_refl. cbn [fst snd txStateAfter]. exact Hmode. }
  destruct Hstep as [Hw Hm].
  destruct (chk && bit).
  - assert (forall lv, wire n (EvDigitalRead (_rxPin n) lv
               :: EvDelayMicroseconds (_bitTimeUs n)
               :: EvDigitalWrite (_txPin n) bit :: t) = wire n t ++ [bit]
            /\ (txState n (EvDigitalRead (_rxPin n) lv
               :: EvDelayMicroseconds (_bitTimeUs n)
               :: EvDigitalWrite (_txPin n) bit :: t)).1 = OUTPUT) as Hread.
    { intros lv. split.
      - rewrite wire_cons. cbn [txLevels]. rewrite app_nil_r. exact Hw.
      - rewrite txState_cons. cbn [txStateAfter]. rewrite <- Hm.
        destruct (txState n _); reflexivity. }
    destruct (negb _); intros [= <- <-]; apply Hread.
  - intros [= <- <-]. split; assumption.
Qed.

Lemma sendStuffed_wire n chk bits :
  is_bus_off n = false ->
  forall c l t s t',
    (txState n t).1 = OUTPUT ->
    sendStuffed rx n chk bits c l t = (Some s, t') ->
    wire n t' = wire n t ++ (stuffBits bits c l).1
    /\ s = (stuffBits bits c l).2
    /\ (txState n t').1 = OUTPUT.
Proof.
  intros Hoff. induction bits as [|b bits IH]; intros c l t s t' Hmode.
  - cbn. intros [= <- <-]. rewrite app_nil_r. auto.
  - cbn [sendStuffed stuffBits].
    destruct (sendBit rx n b chk t) as [ok1 t1] eqn:E1.
    destruct (sendBit_wire _ _ _ _ _ _ Hoff Hmode E1) as [W1 M1].
    destruct ok1; [|discriminate].
    destruct (_ =? 5).
    + destruct (sendBit rx n (negb b) chk t1) as [ok2 t2] eqn:E2.
      destruct (sendBit_wire _ _ _ _ _ _ Hoff M1 E2) as [W2 M2].
      destruct ok2; [|discriminate].
      intros E. destruct (IH _ _ _ _ _ M2 E) as (W & S & M).
      destruct (stuffBits bits 0 (negb b)) as [out s'].
      cbn [fst snd] in *. rewrite W, W2, W1, <- !app_assoc. auto.
    + intros E. destruct (IH _ _ _ _ _ M1 E) as (W & S & M).
      destruct (stuffBits bits _ b) as [out s'].
      cbn [fst snd] in *. rewrite W, W1, <- !app_assoc. auto.
Qed.

(** The released ACK slot reads recessive on this node's TX. *)
Lemma ackSlot_wire n t us level :
  (txState n t).1 = OUTPUT ->
  let t' := EvDigitalWrite (_txPin n) HIGH
              :: EvPinMode (_txPin n) OUTPUT
              :: EvDigitalRead (_rxPin n) level
              :: EvDelayMicroseconds us
              :: EvPinMode (_txPin n) INPUT :: t in
  wire n t' = wire n t ++ [HIGH] /\ (txState n t').1 = OUTPUT.
Proof.
  intros Hmode t'. unfold t'.
  unfold wire, txState in *. cbn [rev]. rewrite <- !app_assoc. cbn [app].
  rewrite txLevels_app, txStateAfter_app.
  destruct (txStateAfter (_txPin n) OUTPUT HIGH (rev t)) as [m l].
  cbn [fst snd] in *. subst m.
  cbn [txLevels txStateAfter].
  repeat (rewrite Z.eqb_refl; cbn [txLevels txStateAfter]).
  split; reflexivity.
Qed.

Lemma sendRecessive_wire n k :
  is_bus_off n = false ->
  forall t,
    (txState n t).1 = OUTPUT ->
    wire n (sendRecessive rx n k t) = wire n t ++ repeat HIGH k
    /\ (txState n (sendRecessive rx n k t)).1 = OUTPUT.
Proof.
  intros Hoff. induction k as [|k IH]; intros t Hmode.
  - cbn. rewrite app_nil_r. auto.
  - cbn [sendRecessive repeat].
    destruct (sendBit rx n HIGH false t) as [ok1 t1] eqn:E1.
    destruct (sendBit_wire _ _ _ _ _ _ Hoff Hmode E1) as [W1 M1].
    cbn [snd]. destruct (IH t1 M1) as [W M].
    rewrite W, W1, <- app_assoc. auto.
Qed.

(** A successful transmission puts on the wire: the SOF; the frame bits
    and the fifteen CRC bits, stuffed by one run of the loop; the CRC
    delimiter; a released ACK slot; the ACK delimiter and the EOF. *)
Lemma sendFrame_wire frame n n' t' :
  sendFrame rx frame n [] = (true, n', t') ->
  let bitSequence := frame_bits frame in
  let crc := calculateCRC bitSequence (Z.of_nat (length bitSequence)) in
  let '(out1, (c, l)) := stuffBits bitSequence 0 LOW in
  let '(out2, _) := stuffBits (bits_msb 15 crc) c l in
  wire n t' = [LOW] ++ out1 ++ out2 ++ [HIGH; HIGH] ++ repeat HIGH 8.
Proof.
  unfold sendFrame. destruct (is_bus_off n) eqn:Hoff; [discriminate|].
  destruct (sendBit rx n LOW false []) as [ok0 t0] eqn:E0.
  destruct (sendBit_wire n LOW false [] ok0 t0 Hoff eq_refl E0) as [W0 M0].
  destruct ok0; [|discriminate].
  destruct (sendStuffed rx n true _ _ _ _) as [[[c l]|] t1] eqn:E1;
    [|discriminate].
  destruct (sendStuffed_wire _ _ _ Hoff _ _ _ _ _ M0 E1) as (W1 & S1 & M1).
  destruct (sendStuffed rx n false _ _ _ _) as [[s2|] t2] eqn:E2;
    [|discriminate].
  destruct (sendStuffed_wire _ _ _ Hoff _ _ _ _ _ M1 E2) as (W2 & S2 & M2).
  destruct (sendBit rx n HIGH false t2) as [ok3 t3] eqn:E3.
  destruct (sendBit_wire _ _ _ _ _ _ Hoff M2 E3) as [W3 M3].
  destruct ok3; [|discriminate].
  cbn [ackSlot]. destruct (negb (negb _)); [discriminate|].
  intros E. injection E as _ <-.
  cbv zeta.
  destruct (stuffBits (frame_bits frame) 0 LOW) as [out1 [c' l']].
  cbn [fst snd] in W1, S1. injection S1 as -> ->.
  destruct (stuffBits (bits_msb 15 _) c' l') as [out2 s2'].
  cbn [fst] in W2.
  set (ta := EvDigitalWrite (_txPin n) HIGH :: _).
  assert (Ha : wire n ta = wire n t3 ++ [HIGH] /\ (txState n ta).1 = OUTPUT)
    by (unfold ta; apply ackSlot_wire; exact M3).
  destruct Ha as [Wa Ma].
  destruct (sendRecessive_wire n 1 Hoff ta Ma) as [W4 M4].
  destruct (sendRecessive_wire n 7 Hoff _ M4) as [W5 _].
  change (wire n (sendRecessive rx n 7 (sendRecessive rx n 1 ta)) =
          [LOW] ++ out1 ++ out2 ++ [HIGH; HIGH] ++ repeat HIGH 8).
  rewrite W5, W4, Wa, W3, W2, W1, W0.
  cbn [wire rev txLevels app repeat]. rewrite <- !app_assoc. reflexivity.
Qed.

End WireFacts.

Lemma stuffBits_app bits1 :
  forall bits2 c l,
    (stuffBits (bits1 ++ bits2) c l).1
    = (stuffBits bits1 c l).1
      ++ (stuffBits bits2 (stuffBits bits1 c l).2.1 (stuffBits bits1 c l).2.2).1.
Proof.
  induction bits1 as [|b bits1 IH]; intros bits2 c l; [reflexivity|].
  cbn [app stuffBits]. destruct (_ =? 5).
  - specialize (IH bits2 0 (negb b)).
    destruct (stuffBits (bits1 ++ bits2) 0 (negb b)) as [out s].
    destruct (stuffBits bits1 0 (negb b)) as [out1 s1].
    cbn [fst snd] in *. rewrite IH. reflexivity.
  - match goal with
    | |- context [stuffBits bits1 ?c' b] => specialize (IH bits2 c' b);
        destruct (stuffBits (bits1 ++ bits2) c' b) as [out s];
        destruct (stuffBits bits1 c' b) as [out1 s1]
    end.
    cbn [fst snd] in *. rewrite IH. reflexivity.
Qed.

(** The same, with the two stuffing loops read as one. *)
Lemma sendFrame_wire_stuffed rx frame n n' t' :
  sendFrame rx frame n [] = (true, n', t') ->
  let bitSequence := frame_bits frame in
  let crc := calculateCRC bitSequence (Z.of_nat (length bitSequence)) in
  wire n t'
  = [LOW] ++ (stuffBits (bitSequence ++ bits_msb 15 crc) 0 LOW).1
      ++ repeat HIGH 10.
Proof.
  intros H. apply sendFrame_wire in H. cbv zeta in *.
  rewrite stuffBits_app.
  destruct (stuffBits (frame_bits frame) 0 LOW) as [out1 [c l]].
  cbn [fst snd].
  destruct (stuffBits (bits_msb 15 _) c l) as [out2 s2].
  cbn [fst]. rewrite H. rewrite <- !app_assoc. reflexivity.
Qed.

Lemma bit_at_small x k :
  0 <= k -> 0 <= x < 2 ^ k -> bit_at x k = false.
Proof.
  intros Hk Hx. unfold bit_at.
  rewrite Z.shiftr_div_pow2, Z.div_small by lia. reflexivity.
Qed.

Lemma stuffBits_cons b bits c l :
  (stuffBits (b :: bits) c l).1
  = b :: (if (if eqb b l then c + 1 else 1) =? 5
          then negb b :: (stuffBits bits 0 (negb b)).1
          else (stuffBits bits (if eqb b l then c + 1 else 1) b).1).
Proof.
  cbn [stuffBits]. destruct (_ =? 5).
  - destruct (stuffBits bits 0 (negb b)); reflexivity.
  - destruct (stuffBits bits _ b); reflexivity.
Qed.

(** The only calls of [readFrame] that touch the TX pin are those whose
    sample is recessive and at least the seventh of its run, and they
    wait one more bit time before they drive the bus. *)
Lemma readFrame_ack_placement now level frame n t :
  match readFrame now level frame n t with
  | Some (status, _, _, t') =>
    (status <> CAN_READ_MSG_OK
     /\ (t' = t \/ t' = EvDigitalRead (_rxPin n) level :: t))
    \/ (status = CAN_READ_MSG_OK
        /\ level = HIGH /\ _lastBit n = HIGH /\ 6 <= _consecutiveBits n
        /\ t' = EvDigitalWrite (_txPin n) HIGH
                  :: EvDelayMicroseconds (_bitTimeUs n)
                  :: EvDigitalWrite (_txPin n) LOW
                  :: EvDelayMicroseconds (_bitTimeUs n)
                  :: EvDigitalRead (_rxPin n) level :: t)
  | None => True
  end.
Proof.
  unfold readFrame.
  destruct (is_bus_off n); [left; split; [discriminate|auto]|].
  destruct (_ <? _); [left; split; [discriminate|auto]|].
  cbn [_rxState set_timing _lastBit _consecutiveBits _rxBitCount _rxBuffer
       _rxPin _txPin _bitTimeUs].
  assert (Hframe :
    match
      (if (if eqb level (_lastBit n) then _consecutiveBits n + 1 else 1) =? 5
       then Some (CAN_READ_NO_MSG, frame,
                  set_rx RX_STATE_FRAME (_rxBuffer n) (_rxBitCount n) 0
                    (negb level)
                    (set_timing (_bitTimeUs n)
                       (uint32 (_lastSampleTime n + _bitTimeUs n)) n),
                  EvDigitalRead (_rxPin n) level :: t)
       else if (0 <=? _rxBitCount n) && (_rxBitCount n <? 128)
       then if level && ((if eqb level (_lastBit n)
                          then _consecutiveBits n + 1 else 1) >=? 7)
            then let n0 := set_rx RX_STATE_IDLE
                             (<[Z.to_nat (_rxBitCount n) := level]> (_rxBuffer n))
                             (_rxBitCount n + 1)
                             (if eqb level (_lastBit n)
                              then _consecutiveBits n + 1 else 1) level
                             (set_timing (_bitTimeUs n)
                                (uint32 (_lastSampleTime n + _bitTimeUs n)) n) in
                 let '(frame0, received_crc, bitIndex) :=
                   decodeFrame (<[Z.to_nat (_rxBitCount n) := level]> (_rxBuffer n))
                     frame in
                 if calculateCRC
                      (<[Z.to_nat (_rxBitCount n) := level]> (_rxBuffer n))
                      (bitIndex - 15) =? received_crc
                 then Some (CAN_READ_MSG_OK, frame0, handleSuccess false true n0,
                            EvDigitalWrite (_txPin n0) HIGH
                              :: EvDelayMicroseconds (_bitTimeUs n0)
                              :: EvDigitalWrite (_txPin n0) LOW
                              :: EvDelayMicroseconds (_bitTimeUs n0)
                              :: EvDigitalRead (_rxPin n) level :: t)
                 else Some (CAN_READ_ERROR, frame0, handleError false true n0,
                            EvDigitalRead (_rxPin n) level :: t)
            else Some (CAN_READ_NO_MSG, frame,
                       set_rx RX_STATE_FRAME
                         (<[Z.to_nat (_rxBitCount n) := level]> (_rxBuffer n))
                         (_rxBitCount n + 1)
                         (if eqb level (_lastBit n)
                          then _consecutiveBits n + 1 else 1) level
                         (set_timing (_bitTimeUs n)
                            (uint32 (_lastSampleTime n + _bitTimeUs n)) n),
                       EvDigitalRead (_rxPin n) level :: t)
       else None)
    with
    | Some (status, _, _, t') =>
      (status <> CAN_READ_MSG_OK
       /\ (t' = t \/ t' = EvDigitalRead (_rxPin n) level :: t))
      \/ (status = CAN_READ_MSG_OK
          /\ level = HIGH /\ _lastBit n = HIGH /\ 6 <= _consecutiveBits n
          /\ t' = EvDigitalWrite (_txPin n) HIGH
                    :: EvDelayMicroseconds (_bitTimeUs n)
                    :: EvDigitalWrite (_txPin n) LOW
                    :: EvDelayMicroseconds (_bitTimeUs n)
                    :: EvDigitalRead (_rxPin n) level :: t)
    | None => True
    end).
  { destruct (_ =? 5); [left; split; [discriminate|auto]|].
    destruct (_ && _); [|exact I].
    destruct level; cbn [andb]; [|left; split; [discriminate|auto]].
    destruct (_lastBit n); cbn [eqb].
    - destruct (_ >=? 7) eqn:E7; [|left; split; [discriminate|auto]].
      destruct (decodeFrame _ frame) as [[frame0 received_crc] bitIndex].
      cbv zeta. destruct (_ =? received_crc).
      + right. repeat split; auto. lia.
      + left. split; [discriminate|auto].
    - cbn [Z.geb Z.compare Pos.compare Pos.compare_cont].
      left; split; [discriminate|auto]. }
  destruct (_rxState n).
  - destruct (negb level); left; split; try discriminate; auto.
  - exact Hframe.
  - exact Hframe.
Qed.

(** ** What a transmission drives: lemmas *)

Section Outcome.

Variable rx : nat -> bool.

(** Every bit sent takes one bit period, whether or not it is the last. *)
Lemma sendBit_elapsed n bit chk t :
  is_bus_off n = false ->
  elapsed (sendBit rx n bit chk t).2 = S (elapsed t).
Proof.
  intros Hoff. unfold sendBit. rewrite Hoff.
  destruct (chk && bit); [destruct (negb _)|]; reflexivity.
Qed.

Lemma sendBit_result n bit chk t :
  is_bus_off n = false ->
  (sendBit rx n bit chk t).1
  = negb (chk && bit) || rx (S (elapsed t)).
Proof.
  intros Hoff. unfold sendBit. rewrite Hoff.
  destruct (chk && bit); cbn [negb orb elapsed]; [|reflexivity].
  destruct (rx _); reflexivity.
Qed.

(** The stuffing loop with the arbitration check runs to its end exactly
    when no recessive bit it sends is read back dominant; it then has
    taken one bit period per bit sent, and never takes more. *)
Lemma sendStuffed_checked n bits :
  is_bus_off n = false ->
  forall c l t,
    let r := sendStuffed rx n true bits c l t in
    let out := (stuffBits bits c l).1 in
    bool_decide (r.1 <> None) = unopposed rx (S (elapsed t)) out
    /\ (elapsed r.2 <= elapsed t + length out)%nat
    /\ (r.1 <> None -> elapsed r.2 = (elapsed t + length out)%nat).
Proof.
  intros Hoff. induction bits as [|b bits IH]; intros c l t.
  - cbn. repeat split; [lia|intros _; lia].
  - cbn [sendStuffed]. rewrite stuffBits_cons.
    pose proof (sendBit_elapsed n b true t Hoff) as E1.
    pose proof (sendBit_result n b true t Hoff) as R1.
    destruct (sendBit rx n b true t) as [ok1 t1]. cbn [fst snd] in E1, R1.
    cbn [andb] in R1. cbn [unopposed length].
    rewrite <- R1.
    destruct ok1.
    2:{ cbn [andb fst snd]. rewrite E1. repeat split; [lia|congruence]. }
    cbn [andb].
    destruct (_ =? 5).
    + pose proof (sendBit_elapsed n (negb b) true t1 Hoff) as E2.
      pose proof (sendBit_result n (negb b) true t1 Hoff) as R2.
      destruct (sendBit rx n (negb b) true t1) as [ok2 t2].
      cbn [fst snd] in E2, R2. cbn [andb] in R2. rewrite E1 in R2, E2.
      cbn [unopposed length]. rewrite <- R2.
      destruct ok2.
      2:{ cbn [andb fst snd]. rewrite E2. repeat split; [lia|congruence]. }
      cbn [andb]. specialize (IH 0 (negb b) t2). cbv zeta in IH.
      rewrite E2 in IH. destruct IH as (I1 & I2 & I3).
      repeat split; [exact I1|lia|]. intros H. rewrite (I3 H). lia.
    + match goal with
      | |- context [sendStuffed rx n true bits ?c' b t1] =>
        specialize (IH c' b t1)
      end.
      cbv zeta in IH. rewrite E1 in IH. destruct IH as (I1 & I2 & I3).
      repeat split; [exact I1|lia|]. intros H. rewrite (I3 H). lia.
Qed.


(** Past the arbitration window nothing stops the transmitter before the
    ACK slot: the frame bits and the CRC bits go out, stuffed by one run
    of the loop, then the CRC delimiter and the released ACK slot; the
    ACK delimiter and the EOF follow only when the slot was read
    dominant. *)
Lemma sendFrame_wire_driven frame n :
  is_bus_off n = false ->
  unopposed rx 2 (stuffBits (frame_bits frame) 0 LOW).1 = true ->
  let bitSequence := frame_bits frame in
  let crc := calculateCRC bitSequence (Z.of_nat (length bitSequence)) in
  let r := sendFrame rx frame n [] in
  wire n r.2
  = [LOW] ++ (stuffBits (bitSequence ++ bits_msb 15 crc) 0 LOW).1
      ++ [HIGH; HIGH] ++ (if r.1.1 then repeat HIGH 8 else []).
Proof.
  intros Hoff Hun. cbv zeta. unfold sendFrame. rewrite Hoff.
  destruct (sendBit rx n LOW false []) as [ok0 t0] eqn:E0.
  destruct (sendBit_wire rx n LOW false [] ok0 t0 Hoff eq_refl E0) as [W0 M0].
  pose proof (sendBit_unchecked rx n LOW [] Hoff) as U0.
  rewrite E0 in U0. injection U0 as -> Ht0.
  destruct (sendStuffed_checked n (frame_bits frame) Hoff 0 LOW t0)
    as (C1 & _ & _).
  replace (S (elapsed t0)) with 2%nat in C1 by (rewrite Ht0; reflexivity).
  rewrite Hun in C1. apply bool_decide_eq_true_1 in C1.
  destruct (sendStuffed rx n true (frame_bits frame) 0 LOW t0)
    as [[[c l]|] t1] eqn:E1; [|exfalso; apply C1; reflexivity].
  destruct (sendStuffed_wire rx n true (frame_bits frame) Hoff 0 LOW t0
              (c, l) t1 M0 E1) as (W1 & S1 & M1).
  destruct (sendStuffed_unchecked rx n
              (bits_msb 15 (calculateCRC (frame_bits frame)
                 (Z.of_nat (length (frame_bits frame))))) Hoff c l t1)
    as (s2 & t2 & E2).
  rewrite E2.
  destruct (sendStuffed_wire rx n false _ Hoff c l t1 s2 t2 M1 E2)
    as (W2 & _ & M2).
  destruct (sendBit rx n HIGH false t2) as [ok3 t3] eqn:E3.
  destruct (sendBit_wire rx n HIGH false t2 ok3 t3 Hoff M2 E3) as [W3 M3].
  pose proof (sendBit_unchecked rx n HIGH t2 Hoff) as U3.
  rewrite E3 in U3. injection U3 as -> _.
  rewrite stuffBits_app.
  rewrite <- S1. cbn [fst snd].
  unfold ackSlot.
  set (level := rx _).
  set (ta := EvDigitalWrite (_txPin n) HIGH :: _).
  assert (Ha : wire n ta = wire n t3 ++ [HIGH] /\ (txState n ta).1 = OUTPUT)
    by (unfold ta; apply ackSlot_wire; exact M3).
  destruct Ha as [Wa Ma].
  destruct (negb (negb level)).
  - cbn [fst snd]. rewrite Wa, W3, W2, W1, W0.
    cbn [wire rev txLevels app]. rewrite <- !app_assoc. reflexivity.
  - change ((true, handleSuccess true false n,
             sendRecessive rx n 7 (sendRecessive rx n 1 ta)).2)
      with (sendRecessive rx n 7 (sendRecessive rx n 1 ta)).
    destruct (sendRecessive_wire rx n 1 Hoff ta Ma) as [W4 M4].
    destruct (sendRecessive_wire rx n 7 Hoff _ M4) as [W5 _].
    cbn [fst snd].
    rewrite W5, W4, Wa, W3, W2, W1, W0.
    cbn [wire rev txLevels app repeat]. rewrite <- !app_assoc. reflexivity.
Qed.

End Outcome.

(** * The claims *)

(** C1 (loopback round-trip: feeding the wire bits of [sendFrame] into
    [readFrame], one sample per bit period, eventually returns
    CAN_READ_MSG_OK with the frame sent). The receiver does not do this.
    For every frame, every bus and every continuation of the bus after
    the frame, a receiver fresh from the constructor answers
    CAN_READ_NO_MSG to every call and leaves the caller's frame as it
    was, for as long as its buffer lasts; and on the frame of the sender
    sketch, acknowledged by a third node and sent in full, all 78 calls
    return CAN_READ_NO_MSG. *)
Theorem loopback_never_delivers :
  (forall others frame nTx rxPin txPin raw callerFrame tail,
     let levels :=
       busLevels others (wire nTx (sendFrame others frame nTx []).2) ++ tail in
     match seen (sampleBus levels callerFrame (ESP_CAN_new rxPin txPin raw) []) with
     | Some (statuses, frame') =>
       Forall (eq CAN_READ_NO_MSG) statuses /\ frame' = callerFrame
     | None => True
     end)
  /\ (let '(ok, nTx, tTx) := sendFrame (rx_ack_at 70) frameS1 node125k [] in
      ok = true
      /\ seen (sampleBus (busLevels (rx_ack_at 70) (wire nTx tTx))
                 frameOld node125k [])
         = Some (repeat CAN_READ_NO_MSG 78, frameOld)).
Proof.
  split.
  - intros others frame nTx rxPin txPin raw callerFrame tail levels.
    unfold sampleBus.
    destruct (readFrames _ callerFrame _ []) as [[[[statuses f'] n'] t']|] eqn:E;
      [|exact I].
    cbn [seen].
    apply readFrames_quiet in E as (Hall & -> & _);
      [auto|apply ESP_CAN_new_bounded].
  - vm_compute. split; reflexivity.
Qed.

(** C2 (fault-confinement transitions: from a fresh node every no-ACK
    failure adds 8 to TEC; 16 failures give TEC = 128 and Error-Passive;
    32 give TEC = 256 and Bus-Off). The counter is a [uint8_t]: after 16
    failures it is 128 and the node is Error-Passive, but the thirty-second
    failure wraps it to 0 and the node is Error-Active again, never
    Bus-Off. *)
Theorem no_ack_failures_wrap_tec :
  forall frame rxPin txPin raw,
    let n0 := ESP_CAN_new rxPin txPin raw in
    let n16 := sendRepeatedly rx_idle frame 16 n0 in
    let n32 := sendRepeatedly rx_idle frame 32 n0 in
    (forall k, state (sendRepeatedly rx_idle frame k n0) <> CAN_STATE_BUS_OFF)
    /\ tec n16 = 128 /\ state n16 = CAN_STATE_ERROR_PASSIVE
    /\ tec n32 = 0 /\ state n32 = CAN_STATE_ERROR_ACTIVE.
Proof.
  intros frame rxPin txPin raw n0 n16 n32.
  assert (Hs : state n0 <> CAN_STATE_BUS_OFF) by discriminate.
  assert (Ht : 0 <= tec n0 < 256) by (cbn; lia).
  assert (Hr : 0 <= rec n0 < 256) by (cbn; lia).
  split.
  { intros k. apply (sendRepeatedly_idle frame k n0 Hs Ht Hr). }
  destruct (sendRepeatedly_idle frame 16 n0 Hs Ht Hr) as (T16 & R16 & _ & S16).
  destruct (sendRepeatedly_idle frame 32 n0 Hs Ht Hr) as (T32 & R32 & _ & S32).
  fold n16 in T16, R16, S16. fold n32 in T32, R32, S32.
  change (tec n16 = 128) in T16. change (tec n32 = 0) in T32.
  change (rec n32 = 0) in R32.
  specialize (S16 ltac:(discriminate)). specialize (S32 ltac:(discriminate)).
  rewrite T16 in S16. rewrite T32, R32 in S32.
  repeat split; assumption.
Qed.

(** C3, the claim as stated fails: a node that drives the recessive first
    identifier bit of 0x400 and reads the bus dominant returns false with
    TEC raised from 0 to 8. *)
Lemma arbitration_loss_is_scored :
  let '(ok, n', t') := sendFrame (rx_ack_at 2) frame400 node125k [] in
  arbitrationLost t' = true /\ ok = false /\ tec n' <> tec node125k.
Proof. vm_compute. repeat split. discriminate. Qed.

(** C3, amended (arbitration loss is handled as a transmit error):
    whenever [sendFrame] ends by driving a recessive bit and reading the
    bus dominant, it returns false after [handleError(true, false)]: TEC
    has gone up by 8 modulo 256, REC is unchanged, and the state is the
    classification of the new counters. *)
Theorem arbitration_loss_counts_as_tx_error rx frame n ok n' t' :
  sendFrame rx frame n [] = (ok, n', t') ->
  arbitrationLost t' = true ->
  ok = false /\ n' = handleError true false n
  /\ tec n' = (tec n + 8) mod 256 /\ rec n' = rec n /\ classified n'.
Proof.
  intros Hsend Hlost.
  apply sendFrame_cases in Hsend
    as [(_ & _ & _ & ->)
       |[(Hoff & -> & -> & _)|[(_ & _ & _ & Hno)|(_ & _ & _ & Hno)]]].
  - discriminate.
  - refine (conj eq_refl (conj eq_refl (conj _ (conj _ _)))).
    + apply handleError_tx_tec, is_bus_off_false, Hoff.
    + apply handleError_tx_rec.
    + apply handleError_classified.
  - congruence.
  - congruence.
Qed.

(** The amended C3 at the lost arbitration on the first bit of 0x400. *)
Lemma arbitration_loss_counts_as_tx_error_witness :
  let r := sendFrame (rx_ack_at 2) frame400 node125k [] in
  arbitrationLost r.2 = true
  /\ r.1.1 = false /\ tec r.1.2 = (tec node125k + 8) mod 256.
Proof.
  intros r. split; [reflexivity|].
  destruct (arbitration_loss_counts_as_tx_error
              (rx_ack_at 2) frame400 node125k r.1.1 r.1.2 r.2)
    as (H1 & _ & H2 & _); [reflexivity|reflexivity|].
  split; assumption.
Defined.

(** C4 (transmit stuffing: no six consecutive bits of one polarity from
    SOF to the end of the CRC field; in particular a stuff bit follows the
    five dominant bits that begin at SOF when the four top identifier bits
    are 0). The run counter of [sendFrame] starts at 0 after the SOF, and
    restarts at 0 after a stuff bit, so neither is counted. Every frame
    whose identifier is below 0x40, sent successfully, puts six dominant
    bits on the wire before its first stuff bit; the all-zero frame is
    sent successfully on an acknowledging bus and does so. *)
Theorem sendFrame_zero_six_dominant :
  (forall rx i d bytes n,
     let frame := {| id := i mod 64; dlc := d; data := bytes |} in
     match sendFrame rx frame n [] with
     | (true, _, t) => take 7 (wire n t) = [LOW; LOW; LOW; LOW; LOW; LOW; HIGH]
     | _ => True
     end)
  /\ (let '(ok, n, t) := sendFrame (rx_ack_at 42) frameZero node125k [] in
      ok = true
      /\ take 7 (wire n t) = [LOW; LOW; LOW; LOW; LOW; LOW; HIGH]
      /\ hasRun 6 (stuffable (wire n t)) = true).
Proof.
  split.
  - intros rx i d bytes n frame.
    destruct (sendFrame rx frame n []) as [[ok n'] t'] eqn:E.
    destruct ok; [|exact I].
    apply sendFrame_wire_stuffed in E. rewrite E.
    pose proof (Z.mod_pos_bound i 64 ltac:(lia)) as Hid.
    unfold frame_bits, frame. cbn [id bits_msb]. cbn [Z.of_nat Pos.of_succ_nat Pos.succ].
    rewrite !(bit_at_small (i mod 64)) by (cbn; lia).
    rewrite <- !app_assoc. cbn [app].
    do 5 (rewrite stuffBits_cons;
          cbv beta iota delta [eqb LOW negb Z.add Z.eqb Pos.add Pos.eqb
                                 Pos.succ]).
    reflexivity.
  - vm_compute. repeat split.
Qed.

(** C5 (receiver destuffing: when the run reaches five, the five bits are
    in the buffer and the next sample, the stuff bit, is the one left
    out). [readFrame] returns on the fifth bit of a run before storing
    it, and stores the sample that follows. After a SOF and four more
    dominant samples the buffer holds three bits, not four; the recessive
    stuff bit that comes next is appended as the fourth. *)
Theorem readFrame_drops_fifth_bit :
  let after5 := sampleBus [LOW; LOW; LOW; LOW; LOW] frameOld node125k [] in
  let after6 := sampleBus [LOW; LOW; LOW; LOW; LOW; HIGH] frameOld node125k [] in
  option_map (fun r => (_rxBitCount r.1.2, _consecutiveBits r.1.2)) after5
    = Some (3, 0)
  /\ option_map (fun r => (_rxBitCount r.1.2, take 4 (_rxBuffer r.1.2))) after6
    = Some (4, [LOW; LOW; LOW; HIGH]).
Proof. vm_compute. split; reflexivity. Qed.

(** C6 (CRC correctness): the value [sendFrame] computes is the CAN
    CRC-15, by the specification's recurrence, of the logical bits from
    the SOF to the end of the data field; the fifteen bits it appends,
    most significant first, denote that value; and whenever the
    transmission is not cut short in the arbitration window (the node is
    not Bus-Off and no recessive bit from the identifier to the data is
    read back dominant), acknowledged or not, the wire carries the SOF,
    then the frame bits followed by those fifteen bits through the
    stuffing loop, then the CRC delimiter and the released ACK slot, and
    after an ACK the eight closing recessive bits. For identifier 0 and
    DLC 0 the value is 0. *)
Theorem transmitted_crc_is_crc15 :
  forall frame,
    let bitSequence := frame_bits frame in
    let crc := calculateCRC bitSequence (Z.of_nat (length bitSequence)) in
    crc = crc15 (LOW :: bitSequence)
    /\ bitsValue (bits_msb 15 crc) = crc
    /\ (forall rx n,
          is_bus_off n = false ->
          unopposed rx 2 (stuffBits bitSequence 0 LOW).1 = true ->
          let r := sendFrame rx frame n [] in
          wire n r.2
          = [LOW] ++ (stuffBits (bitSequence ++ bits_msb 15 crc) 0 LOW).1
              ++ [HIGH; HIGH] ++ (if r.1.1 then repeat HIGH 8 else []))
    /\ (let zero := {| id := 0; dlc := 0; data := data frame |} in
        calculateCRC (frame_bits zero) (Z.of_nat (length (frame_bits zero))) = 0).
Proof.
  intros frame bitSequence crc.
  assert (Hcrc : crc = crc15 bitSequence) by apply calculateCRC_crc15.
  split; [|split; [|split]].
  - rewrite Hcrc. symmetry. apply crc15_sof.
  - rewrite bits_msb_value, Hcrc. apply Z.mod_small, crc15_range.
  - intros rx n Hoff Hun. apply sendFrame_wire_driven; assumption.
  - reflexivity.
Qed.

(** C6 at the sender sketch's frame, sent from a configured node: on a
    bus where nobody answers the call fails, and the CRC 0x4E6B has gone
    out all the same; on a bus with an ACK in period 70 it succeeds. *)
Lemma transmitted_crc_is_crc15_witness :
  let bitSequence := frame_bits frameS1 in
  let crc := calculateCRC bitSequence (Z.of_nat (length bitSequence)) in
  let quiet := sendFrame rx_idle frameS1 node125k [] in
  let acked := sendFrame (rx_ack_at 70) frameS1 node125k [] in
  crc = 0x4E6B
  /\ (is_bus_off node125k = false
      /\ unopposed rx_idle 2 (stuffBits bitSequence 0 LOW).1 = true
      /\ quiet.1.1 = false
      /\ wire node125k quiet.2
         = [LOW] ++ (stuffBits (bitSequence ++ bits_msb 15 crc) 0 LOW).1
             ++ [HIGH; HIGH])
  /\ (unopposed (rx_ack_at 70) 2 (stuffBits bitSequence 0 LOW).1 = true
      /\ acked.1.1 = true
      /\ wire node125k acked.2
         = [LOW] ++ (stuffBits (bitSequence ++ bits_msb 15 crc) 0 LOW).1
             ++ [HIGH; HIGH] ++ repeat HIGH 8).
Proof.
  intros bitSequence crc quiet acked.
  destruct (transmitted_crc_is_crc15 frameS1) as (_ & _ & Hwire & _).
  fold bitSequence in Hwire. fold crc in Hwire.
  assert (Hoff : is_bus_off node125k = false) by reflexivity.
  assert (Hq : unopposed rx_idle 2 (stuffBits bitSequence 0 LOW).1 = true)
    by (vm_compute; reflexivity).
  assert (Ha : unopposed (rx_ack_at 70) 2 (stuffBits bitSequence 0 LOW).1 = true)
    by (vm_compute; reflexivity).
  assert (Rq : quiet.1.1 = false) by (vm_compute; reflexivity).
  assert (Ra : acked.1.1 = true) by (vm_compute; reflexivity).
  pose proof (Hwire rx_idle node125k Hoff Hq) as Wq.
  pose proof (Hwire (rx_ack_at 70) node125k Hoff Ha) as Wa.
  cbv zeta in Wq, Wa. fold quiet in Wq. fold acked in Wa.
  rewrite Rq in Wq. rewrite Ra in Wa. rewrite app_nil_r in Wq.
  split; [vm_compute; reflexivity|].
  split; [repeat split; assumption|repeat split; assumption].
Defined.

(** C7 (ACK timing: on a CRC match the receiver drives the dominant ACK
    during the ACK slot, never first after the EOF). The ACK is written
    only in the end-of-frame branch of [readFrame]: in a call whose
    sample is at least the seventh recessive one in a row, and after one
    more bit time. A receiver fresh from the constructor never enters
    that branch: whatever it samples, it never writes its TX pin. In the
    loopback of the sender sketch's frame the transmitter therefore reads
    its ACK slot recessive, returns false and scores 8 on TEC, and the
    receiver has still not driven the bus ten bit periods after the
    frame. *)
Theorem receiver_never_acknowledges :
  (forall now level frame n t,
     match readFrame now level frame n t with
     | Some (_, _, _, t') =>
       drivesDominant (_txPin n) t' = drivesDominant (_txPin n) t
       \/ (level = HIGH /\ _lastBit n = HIGH /\ 6 <= _consecutiveBits n
           /\ t' = EvDigitalWrite (_txPin n) HIGH
                     :: EvDelayMicroseconds (_bitTimeUs n)
                     :: EvDigitalWrite (_txPin n) LOW
                     :: EvDelayMicroseconds (_bitTimeUs n)
                     :: EvDigitalRead (_rxPin n) level :: t)
     | None => True
     end)
  /\ (forall inputs frame rxPin txPin raw,
       match readFrames inputs frame (ESP_CAN_new rxPin txPin raw) [] with
       | Some (_, _, _, t') => neverDrives txPin t'
       | None => True
       end)
  /\ (let '(ok, nTx, tTx) := sendFrame rx_idle frameS1 node125k [] in
      ok = false /\ tec nTx = 8
      /\ option_map (fun r => drivesDominant 4 r.2)
           (sampleBus (wire nTx tTx ++ repeat HIGH 10) frameOld node125k [])
         = Some false).
Proof.
  split; [|split].
  - intros now level frame n t.
    pose proof (readFrame_ack_placement now level frame n t) as H.
    destruct (readFrame now level frame n t) as [[[[status f'] n'] t']|];
      [|exact I].
    destruct H as [[_ [->| ->]]|(_ & H)]; [left; reflexivity|left|right; exact H].
    cbn [drivesDominant existsb]. rewrite bool_decide_eq_false_2 by discriminate.
    reflexivity.
  - intros inputs frame rxPin txPin raw.
    destruct (readFrames _ _ _ _) as [[[[statuses f'] n'] t']|] eqn:E;
      [|exact I].
    apply readFrames_quiet in E as (_ & _ & _ & _ & _ & _ & _ & Hnd);
      [|apply ESP_CAN_new_bounded].
    apply Hnd. intros level Hin. inversion Hin.
  - vm_compute. repeat split.
Qed.

(** C8, the claim as stated fails: [begin] on a node whose TEC is 8
    leaves it at 8. *)
Lemma begin_keeps_counters :
  let n := (sendFrame rx_idle frameS1 node125k []).1.2 in
  tec n = 8
  /\ option_map (fun r => tec r.1) (begin 125000 5000 n []) = Some 8.
Proof. vm_compute. split; reflexivity. Qed.

(** C8, amended ([begin] configures and does not reset): for a non-zero
    baud rate, [begin] sets TX to output and RX to input with pull-up,
    drives TX recessive, sets the bit time to 1000000 / baudrate and the
    last-sample timestamp to the current time, and leaves TEC, REC and the
    node state as they were; only the constructor zeroes them. *)
Theorem begin_configures_only baudrate now n t :
  baudrate <> 0 ->
  exists n',
    begin baudrate now n t
    = Some (n', EvDigitalWrite (_txPin n) HIGH
                  :: EvPinMode (_rxPin n) INPUT_PULLUP
                  :: EvPinMode (_txPin n) OUTPUT :: t)
    /\ tec n' = tec n /\ rec n' = rec n /\ state n' = state n
    /\ _bitTimeUs n' = Z.quot 1000000 baudrate
    /\ _lastSampleTime n' = now mod 2 ^ 32.
Proof.
  intros Hb. unfold begin.
  destruct (baudrate =? 0) eqn:E; [lia|].
  eexists. split; [reflexivity|]. repeat split.
Qed.

(** The amended C8 at a node that sixteen failed transmissions have
    taken to TEC = 128 and Error-Passive: [begin] at 125 kbit/s sets a
    bit time of 8 microseconds and leaves the node there. *)
Lemma begin_configures_only_witness :
  125000 <> 0
  /\ tec nodePassive = 128
  /\ state nodePassive = CAN_STATE_ERROR_PASSIVE
  /\ exists n',
       begin 125000 5000 nodePassive []
       = Some (n', [EvDigitalWrite 4 HIGH; EvPinMode 5 INPUT_PULLUP;
                    EvPinMode 4 OUTPUT])
       /\ tec n' = 128 /\ rec n' = 0 /\ state n' = CAN_STATE_ERROR_PASSIVE
       /\ _bitTimeUs n' = 8 /\ _lastSampleTime n' = 5000.
Proof.
  split; [lia|]. split; [vm_compute; reflexivity|].
  split; [vm_compute; reflexivity|].
  destruct (begin_configures_only 125000 5000 nodePassive [] ltac:(lia))
    as (n' & E & Ht & Hr & Hs & Hb & Hl).
  exists n'. rewrite E, Ht, Hr, Hs, Hb, Hl.
  vm_compute. repeat split.
Defined.

(** C9 (state-classification invariant): after the constructor and after
    every call of [begin], [sendFrame] or [readFrame], the state is the
    classification of the counters: Bus-Off iff a counter exceeds 255,
    else Error-Passive iff a counter exceeds 127, else Error-Active. *)
Theorem state_is_classified n : reachable n -> classified n.
Proof.
  induction 1 as [rxPin txPin raw
                 |n baudrate now t n' t' _ IH Hb
                 |n rx frame t ok n' t' _ IH Hs
                 |n now level frame t status frame' n' t' _ IH Hr].
  - unfold classified. cbn. repeat split; intros; try discriminate; lia.
  - apply begin_fault in Hb as (Ht & Hr & Hst & _).
    eapply classified_ext; eassumption.
  - apply sendFrame_cases in Hs
      as [(_ & _ & -> & _)|[(_ & _ & -> & _)|[(_ & _ & -> & _)|(_ & _ & -> & _)]]].
    + exact IH.
    + apply handleError_classified.
    + apply handleError_classified.
    + apply handleSuccess_classified.
  - eapply readFrame_classified; eassumption.
Qed.

(** C9 at a node that has failed one transmission for lack of an ACK. *)
Lemma state_is_classified_witness :
  let n := (sendFrame rx_idle frameS1 (ESP_CAN_new 5 4 blank) []).1.2 in
  reachable n /\ classified n.
Proof.
  intros n.
  assert (R : reachable n).
  { apply (reach_send (ESP_CAN_new 5 4 blank) rx_idle frameS1 []
             false n
             (sendFrame rx_idle frameS1 (ESP_CAN_new 5 4 blank) []).2).
    - apply reach_new.
    - reflexivity. }
  split; [exact R|]. apply (state_is_classified n R).
Defined.

(** The end-of-frame branch of [readFrame], at any node object: a call
    that returns CAN_READ_NO_MSG leaves the caller's frame as it was; a
    call that returns anything else has run the decode block first, so
    [id] holds buffer bits 0..10, [dlc] bits 14..17 clamped to 8, and each
    of the first [dlc] data bytes its eight buffer bits, most significant
    first, whatever the CRC comparison then says. *)
Lemma readFrame_overwrites_frame now level frame n t status frame' n' t' :
  length (data frame) = 8%nat ->
  readFrame now level frame n t = Some (status, frame', n', t') ->
  (status = CAN_READ_NO_MSG -> frame' = frame)
  /\ (status <> CAN_READ_NO_MSG ->
      let buf := _rxBuffer n' in
      id frame' = bitsValue (slice buf 0 11)
      /\ dlc frame' = Z.min 8 (bitsValue (slice buf 14 4))
      /\ forall i, (i < Z.to_nat (dlc frame'))%nat ->
           data frame' !! i = Some (bitsValue (slice buf (18 + 8 * i) 8))).
Proof.
  intros Hlen. unfold readFrame.
  destruct (is_bus_off n); [intros [= <- <- <- <-]; split; congruence|].
  destruct (_ <? _); [intros [= <- <- <- <-]; split; congruence|].
  cbn [_rxState set_timing _lastBit _consecutiveBits _rxBitCount _rxBuffer
       _rxPin _txPin _bitTimeUs].
  set (run := if eqb level (_lastBit n) then _consecutiveBits n + 1 else 1).
  set (buf := <[Z.to_nat (_rxBitCount n) := level]> (_rxBuffer n)).
  assert (Hframe :
    (if run =? 5
     then Some (CAN_READ_NO_MSG, frame,
                set_rx RX_STATE_FRAME (_rxBuffer n) (_rxBitCount n) 0
                  (negb level)
                  (set_timing (_bitTimeUs n)
                     (uint32 (_lastSampleTime n + _bitTimeUs n)) n),
                EvDigitalRead (_rxPin n) level :: t)
     else if (0 <=? _rxBitCount n) && (_rxBitCount n <? 128)
     then if level && (run >=? 7)
          then let n0 := set_rx RX_STATE_IDLE buf (_rxBitCount n + 1) run level
                           (set_timing (_bitTimeUs n)
                              (uint32 (_lastSampleTime n + _bitTimeUs n)) n) in
               let '(frame0, received_crc, bitIndex) := decodeFrame buf frame in
               if calculateCRC buf (bitIndex - 15) =? received_crc
               then Some (CAN_READ_MSG_OK, frame0, handleSuccess false true n0,
                          EvDigitalWrite (_txPin n0) HIGH
                            :: EvDelayMicroseconds (_bitTimeUs n0)
                            :: EvDigitalWrite (_txPin n0) LOW
                            :: EvDelayMicroseconds (_bitTimeUs n0)
                            :: EvDigitalRead (_rxPin n) level :: t)
               else Some (CAN_READ_ERROR, frame0, handleError false true n0,
                          EvDigitalRead (_rxPin n) level :: t)
          else Some (CAN_READ_NO_MSG, frame,
                     set_rx RX_STATE_FRAME buf (_rxBitCount n + 1) run level
                       (set_timing (_bitTimeUs n)
                          (uint32 (_lastSampleTime n + _bitTimeUs n)) n),
                     EvDigitalRead (_rxPin n) level :: t)
     else None) = Some (status, frame', n', t') ->
    (status = CAN_READ_NO_MSG -> frame' = frame)
    /\ (status <> CAN_READ_NO_MSG ->
        let buf := _rxBuffer n' in
        id frame' = bitsValue (slice buf 0 11)
        /\ dlc frame' = Z.min 8 (bitsValue (slice buf 14 4))
        /\ forall i, (i < Z.to_nat (dlc frame'))%nat ->
             data frame' !! i = Some (bitsValue (slice buf (18 + 8 * i) 8)))).
  { destruct (run =? 5); [intros [= <- <- <- <-]; split; congruence|].
    destruct (_ && _); [|discriminate].
    destruct (level && _); [|intros [= <- <- <- <-]; split; congruence].
    pose proof (decodeFrame_spec buf frame Hlen) as Hdec.
    destruct (decodeFrame buf frame) as [[frame0 received_crc] bitIndex].
    cbn [fst] in Hdec. cbv zeta.
    destruct (_ =? received_crc); intros [= <- <- <- <-];
      (split; [discriminate|intros _]).
    - rewrite handleSuccess_rxBuffer. exact Hdec.
    - rewrite handleError_rxBuffer. exact Hdec. }
  destruct (_rxState n).
  - destruct (negb level); intros [= <- <- <- <-]; split; congruence.
  - exact Hframe.
  - exact Hframe.
Qed.


(** * Further properties *)

(** ** Fault confinement in reachable nodes *)

(** What one transmit failure and one transmit success do to counters
    that are in range. *)
Lemma handle_tx_range n :
  state n <> CAN_STATE_BUS_OFF -> 0 <= tec n < 256 -> 0 <= rec n < 256 ->
  (0 <= tec (handleError true false n) < 256
   /\ 0 <= rec (handleError true false n) < 256
   /\ state (handleError true false n) <> CAN_STATE_BUS_OFF)
  /\ (tec (handleSuccess true false n) = Z.max 0 (tec n - 1)
      /\ rec (handleSuccess true false n) = rec n
      /\ state (handleSuccess true false n) <> CAN_STATE_BUS_OFF).
Proof.
  intros Hs Ht Hr. split.
  - rewrite handleError_tx_tec, handleError_tx_rec by assumption.
    split; [apply Z.mod_pos_bound; lia|]. split; [assumption|].
    unfold handleError. apply is_bus_off_false in Hs. rewrite Hs.
    cbn [andb negb]. apply updateState_not_bus_off; cbn; [|lia].
    apply Z.mod_pos_bound; lia.
  - unfold handleSuccess. cbn [andb].
    destruct (tec n >? 0) eqn:E.
    + rewrite updateState_tec, updateState_rec. cbn [tec rec set_tec].
      unfold uint8. rewrite Z.mod_small by lia.
      split; [lia|]. split; [reflexivity|].
      apply updateState_not_bus_off; cbn; lia.
    + rewrite updateState_tec, updateState_rec.
      split; [lia|]. split; [reflexivity|].
      apply updateState_not_bus_off; assumption.
Qed.

(** X1. Every node a host can obtain has both counters within 0..255 and
    is not Bus-Off: the Bus-Off guards of [sendFrame], [sendBit],
    [readFrame] and [handleError] never fire. *)
Theorem reachable_counters_in_range n :
  reachable n ->
  0 <= tec n < 256 /\ 0 <= rec n < 256 /\ state n <> CAN_STATE_BUS_OFF.
Proof.
  induction 1 as [rxPin txPin raw
                 |n baudrate now t n' t' Hreach IH Hb
                 |n rx frame t ok n' t' Hreach IH Hs
                 |n now level frame t status frame' n' t' Hreach IH Hr].
  - cbn. repeat split; try lia. discriminate.
  - apply begin_fault in Hb as (-> & -> & -> & _). exact IH.
  - destruct IH as (Ht & Hr & Hst).
    destruct (handle_tx_range n Hst Ht Hr) as [(E1 & E2 & E3) (S1 & S2 & S3)].
    apply sendFrame_cases in Hs
      as [(_ & _ & -> & _)|[(_ & _ & -> & _)|[(_ & _ & -> & _)|(_ & _ & -> & _)]]];
      auto.
    rewrite S1, S2. repeat split; try lia. assumption.
  - apply reachable_rx_run_bounded in Hreach.
    eapply readFrame_quiet in Hr as (_ & _ & _ & -> & -> & -> & _);
      [exact IH|exact Hreach].
Qed.

(** A node that has failed one transmission. *)
Lemma reachable_counters_in_range_witness :
  let n := (sendFrame rx_idle frameS1 (ESP_CAN_new 5 4 blank) []).1.2 in
  reachable n /\ tec n = 8 /\ 0 <= tec n < 256.
Proof.
  intros n.
  assert (R : reachable n).
  { apply (reach_send (ESP_CAN_new 5 4 blank) rx_idle frameS1 []
             false n
             (sendFrame rx_idle frameS1 (ESP_CAN_new 5 4 blank) []).2).
    - apply reach_new.
    - reflexivity. }
  split; [exact R|]. split; [reflexivity|].
  apply (reachable_counters_in_range n R).
Defined.

(** X2. A transmission that succeeds takes one off TEC unless it is 0,
    leaves REC alone, and sets the state to what the new counters call
    for. *)
Theorem sendFrame_success_decrements rx frame n t n' t' :
  0 <= tec n < 256 -> 0 <= rec n < 256 ->
  sendFrame rx frame n t = (true, n', t') ->
  tec n' = Z.max 0 (tec n - 1) /\ rec n' = rec n
  /\ state n' = (if (tec n' >? 127) || (rec n' >? 127)
                 then CAN_STATE_ERROR_PASSIVE else CAN_STATE_ERROR_ACTIVE).
Proof.
  intros Ht Hr Hs.
  apply sendFrame_cases in Hs
    as [(_ & [=] & _)|[(_ & [=] & _)|[(_ & [=] & _)|(Hoff & _ & -> & _)]]].
  apply is_bus_off_false in Hoff.
  destruct (handle_tx_range n Hoff Ht Hr) as [_ (S1 & S2 & S3)].
  split; [exact S1|]. split; [exact S2|].
  unfold handleSuccess. cbn [andb].
  set (m := if tec n >? 0 then set_tec (uint8 (tec n - 1)) n else n).
  assert (Hm : 0 <= tec m < 256 /\ 0 <= rec m < 256).
  { unfold m. destruct (tec n >? 0); cbn [tec rec set_tec]; [|lia].
    split; [apply Z.mod_pos_bound; lia|lia]. }
  rewrite updateState_tec, updateState_rec.
  apply updateState_state_range; apply Hm.
Qed.

(** After sixteen failures (TEC 128, Error-Passive) one acknowledged
    transmission brings TEC to 127 and the node back to Error-Active. *)
Lemma sendFrame_success_decrements_witness :
  let r := sendFrame (rx_ack_at 70) frameS1 nodePassive [] in
  0 <= tec nodePassive < 256 /\ 0 <= rec nodePassive < 256
  /\ tec nodePassive = 128 /\ state nodePassive = CAN_STATE_ERROR_PASSIVE
  /\ r.1.1 = true
  /\ tec r.1.2 = 127 /\ state r.1.2 = CAN_STATE_ERROR_ACTIVE.
Proof.
  intros r.
  assert (Ht : tec nodePassive = 128) by (vm_compute; reflexivity).
  assert (Hr : rec nodePassive = 0) by (vm_compute; reflexivity).
  assert (Hs : state nodePassive = CAN_STATE_ERROR_PASSIVE)
    by (vm_compute; reflexivity).
  assert (E : sendFrame (rx_ack_at 70) frameS1 nodePassive []
              = (true, r.1.2, r.2)) by (vm_compute; reflexivity).
  destruct (sendFrame_success_decrements (rx_ack_at 70) frameS1 nodePassive []
              r.1.2 r.2 ltac:(lia) ltac:(lia) E) as (H1 & H2 & H3).
  rewrite Ht in H1. rewrite Hr in H2.
  change (Z.max 0 (128 - 1)) with 127 in H1.
  rewrite H1, H2 in H3. cbn in H3.
  repeat split; try lia; try assumption.
Defined.

Section Timing.

Variable rx : nat -> bool.

Lemma sendStuffed_state n chk bits :
  forall c l t s t',
    sendStuffed rx n chk bits c l t = (Some s, t') ->
    s = (stuffBits bits c l).2.
Proof.
  induction bits as [|b bits IH]; intros c l t s t'.
  - cbn. intros [= <- <-]. reflexivity.
  - cbn [sendStuffed stuffBits].
    destruct (sendBit rx n b chk t) as [[] t1]; [|discriminate].
    destruct (_ =? 5).
    + destruct (sendBit rx n (negb b) chk t1) as [[] t2]; [|discriminate].
      intros E. apply IH in E as ->.
      destruct (stuffBits bits 0 (negb b)); reflexivity.
    + intros E. apply IH in E as ->.
      destruct (stuffBits bits _ b); reflexivity.
Qed.

Lemma sendStuffed_unchecked_elapsed n bits :
  is_bus_off n = false ->
  forall c l t s t',
    sendStuffed rx n false bits c l t = (Some s, t') ->
    elapsed t' = (elapsed t + length (stuffBits bits c l).1)%nat.
Proof.
  intros Hoff. induction bits as [|b bits IH]; intros c l t s t'.
  - cbn. intros [= <- <-]. lia.
  - cbn [sendStuffed]. rewrite stuffBits_cons.
    rewrite !sendBit_unchecked by assumption.
    destruct (_ =? 5).
    + intros E. apply IH in E. rewrite E. cbn [elapsed length]. lia.
    + intros E. apply IH in E. rewrite E. cbn [elapsed length]. lia.
Qed.

Lemma sendRecessive_elapsed n k :
  is_bus_off n = false ->
  forall t, elapsed (sendRecessive rx n k t) = (elapsed t + k)%nat.
Proof.
  intros Hoff. induction k as [|k IH]; intros t; [cbn; lia|].
  cbn [sendRecessive]. rewrite IH, sendBit_elapsed by assumption. lia.
Qed.

Lemma stuffedFrame_length frame :
  length (stuffedFrame frame)
  = (length (stuffedArbitration frame)
     + length (stuffBits (crcBits frame)
                 (stuffBits (frame_bits frame) 0 LOW).2.1
                 (stuffBits (frame_bits frame) 0 LOW).2.2).1)%nat.
Proof.
  unfold stuffedFrame, stuffedArbitration.
  rewrite stuffBits_app, length_app. reflexivity.
Qed.

(** What [sendFrame] returns, and how long it takes. *)
Lemma sendFrame_outcome frame n :
  is_bus_off n = false ->
  let r := sendFrame rx frame n [] in
  r.1.1 = unopposed rx 2 (stuffedArbitration frame)
          && negb (rx (ackInstant frame))
  /\ (elapsed r.2 <= length (stuffedFrame frame) + 11)%nat
  /\ (r.1.1 = true -> elapsed r.2 = (length (stuffedFrame frame) + 11)%nat).
Proof.
  intros Hoff. cbv zeta. unfold sendFrame. rewrite Hoff.
  rewrite sendBit_unchecked by assumption.
  set (t0 := [EvDelayMicroseconds (_bitTimeUs n); EvDigitalWrite (_txPin n) LOW]).
  destruct (sendStuffed_checked rx n (frame_bits frame) Hoff 0 LOW t0)
    as (C1 & C2 & C3).
  change (elapsed t0) with 1%nat in C1, C2, C3.
  fold (stuffedArbitration frame) in C1, C2, C3.
  pose proof (stuffedFrame_length frame) as HL.
  destruct (sendStuffed rx n true (frame_bits frame) 0 LOW t0)
    as [[[c l]|] t1] eqn:E1; cbn [fst snd] in C1, C2, C3.
  2:{ rewrite <- C1.
      rewrite bool_decide_eq_false_2 by (intros H; apply H; reflexivity).
      cbn [andb fst snd]. split; [reflexivity|]. split; [lia|discriminate]. }
  rewrite bool_decide_eq_true_2 in C1 by discriminate.
  specialize (C3 ltac:(discriminate)).
  pose proof (sendStuffed_state _ _ _ _ _ _ _ _ E1) as S1.
  rewrite <- S1 in HL. cbn [fst snd] in HL.
  destruct (sendStuffed_unchecked rx n (crcBits frame) Hoff c l t1)
    as (s & t2 & E2).
  pose proof (sendStuffed_unchecked_elapsed n _ Hoff _ _ _ _ _ E2) as L2.
  unfold crcBits in E2. rewrite E2. fold (crcBits frame) in E2.
  rewrite sendBit_unchecked by assumption.
  unfold ackSlot.
  assert (Hack : elapsed (EvDelayMicroseconds (_bitTimeUs n)
                    :: EvPinMode (_txPin n) INPUT
                    :: EvDelayMicroseconds (_bitTimeUs n)
                    :: EvDigitalWrite (_txPin n) HIGH :: t2)
                 = ackInstant frame).
  { cbn [elapsed]. unfold ackInstant. lia. }
  rewrite Hack. rewrite <- C1. cbn [andb].
  destruct (rx (ackInstant frame)); cbn [negb].
  - cbn [fst snd elapsed]. split; [reflexivity|]. split; [lia|discriminate].
  - set (ta := EvDigitalWrite (_txPin n) HIGH :: _).
    change ((true, handleSuccess true false n,
             sendRecessive rx n 7 (sendRecessive rx n 1 ta)).2)
      with (sendRecessive rx n 7 (sendRecessive rx n 1 ta)).
    cbn [fst snd].
    rewrite !sendRecessive_elapsed by assumption.
    unfold ta. cbn [elapsed].
    split; [reflexivity|]. split; [lia|intros _; lia].
Qed.

End Timing.

(** ** Lengths: lemmas *)

Lemma flat_map_length_const {A B} (f : A -> list B) (k : nat) (l : list A) :
  (forall a, length (f a) = k) ->
  length (flat_map f l) = (k * length l)%nat.
Proof.
  intros Hf. induction l as [|a l IH]; [cbn; lia|].
  cbn [flat_map length]. rewrite length_app, Hf, IH. lia.
Qed.

Lemma clamp_dlc_min d : clamp_dlc d = Z.min d 8.
Proof. unfold clamp_dlc. destruct (d >? 8) eqn:E; lia. Qed.

Lemma frame_bits_length_eq frame :
  length (frame_bits frame)
  = (18 + 8 * Z.to_nat (Z.min (dlc frame) 8))%nat.
Proof.
  unfold frame_bits. rewrite !length_app, !bits_msb_length.
  rewrite (flat_map_length_const _ 8) by (intros; apply bits_msb_length).
  rewrite length_seq, clamp_dlc_min. cbn [length]. lia.
Qed.

(** One stuff bit at most for every five bits walked, counting the run
    the loop is entered with. *)
Lemma stuffBits_length bits :
  forall c l,
    0 <= c <= 4 ->
    let out := (stuffBits bits c l).1 in
    (length bits <= length out)%nat
    /\ 5 * (Z.of_nat (length out) - Z.of_nat (length bits))
       <= Z.of_nat (length bits) + c.
Proof.
  induction bits as [|b bits IH]; intros c l Hc; [cbn; lia|].
  cbv zeta. rewrite stuffBits_cons. cbn [length].
  destruct (eqb b l).
  - destruct (c + 1 =? 5) eqn:E.
    + destruct (IH 0 (negb b) ltac:(lia)) as [I1 I2]. cbn [length]. lia.
    + destruct (IH (c + 1) b ltac:(lia)) as [I1 I2]. lia.
  - cbn [Z.eqb Pos.eqb].
    destruct (IH 1 b ltac:(lia)) as [I1 I2]. lia.
Qed.

Lemma crcBits_length frame : length (crcBits frame) = 15%nat.
Proof. apply bits_msb_length. Qed.

Lemma stuffedFrame_bounds frame :
  (33 <= length (stuffedFrame frame) <= 116)%nat.
Proof.
  unfold stuffedFrame.
  destruct (stuffBits_length (frame_bits frame ++ crcBits frame) 0 LOW
              ltac:(lia)) as [H1 H2].
  rewrite length_app, crcBits_length, frame_bits_length_eq in H1, H2.
  lia.
Qed.

(** ** Runs on the wire: lemmas *)

Lemma forallb_take_repeat (p : bool) m :
  forall k rest,
    forallb (eqb p) (take k (repeat p m ++ negb p :: rest)) = (k <=? m)%nat.
Proof.
  induction m as [|m IH]; intros [|k] rest; try reflexivity.
  - cbn. destruct p; reflexivity.
  - cbn [repeat app take forallb]. rewrite IH. destruct p; reflexivity.
Qed.

Lemma forallb_take_repeat_all (p : bool) m k :
  forallb (eqb p) (take k (repeat p m)) = true.
Proof.
  revert k. induction m as [|m IH]; intros [|k]; try reflexivity.
  cbn [repeat take forallb]. rewrite IH. destruct p; reflexivity.
Qed.

Lemma hasRun_repeat (p : bool) k m :
  (0 < k)%nat -> hasRun k (repeat p m) = (k <=? m)%nat.
Proof.
  intros Hk. induction m as [|m IH].
  - cbn. destruct k; [lia|reflexivity].
  - cbn [repeat hasRun]. rewrite IH.
    change (p :: repeat p m) with (repeat p (S m)).
    rewrite forallb_take_repeat_all, repeat_length, andb_true_r.
    destruct (Nat.leb_spec k (S m)), (Nat.leb_spec k m); try reflexivity; lia.
Qed.

Lemma hasRun_repeat_app (p : bool) k m rest :
  (0 < k)%nat ->
  hasRun k (repeat p m ++ negb p :: rest)
  = (k <=? m)%nat || hasRun k (negb p :: rest).
Proof.
  intros Hk. induction m as [|m IH].
  - cbn [repeat app]. destruct k; [lia|reflexivity].
  - cbn [repeat app hasRun]. rewrite IH.
    change (p :: repeat p m ++ negb p :: rest)
      with (repeat p (S m) ++ negb p :: rest).
    rewrite forallb_take_repeat.
    rewrite length_app, repeat_length. cbn [length].
    destruct (Nat.leb_spec k (S m + S (length rest))),
             (Nat.leb_spec k (S m)), (Nat.leb_spec k m);
      cbn [andb orb]; try reflexivity; lia.
Qed.

Lemma repeat_snoc_app {A} (x : A) r (rest : list A) :
  repeat x r ++ x :: rest = repeat x (S r) ++ rest.
Proof.
  change (x :: rest) with ([x] ++ rest).
  rewrite app_assoc, <- repeat_cons. reflexivity.
Qed.

(** The run behind the loop is as long as the counter says, or one
    longer (the SOF and the stuff bits are sent but not counted); so
    runs of six occur, and runs of seven do not. *)
Lemma stuffBits_runs bits :
  forall c l r,
    0 <= c <= 4 -> (1 <= r)%nat ->
    Z.of_nat r = c \/ Z.of_nat r = c + 1 ->
    hasRun 7 (repeat l r ++ (stuffBits bits c l).1) = false.
Proof.
  induction bits as [|b bits IH]; intros c l r Hc Hr Hrc.
  - cbn [stuffBits fst]. rewrite app_nil_r, hasRun_repeat by lia.
    apply Nat.leb_gt. lia.
  - rewrite stuffBits_cons. destruct (eqb b l) eqn:Ebl.
    + apply eqb_prop in Ebl. subst b.
      rewrite repeat_snoc_app.
      destruct (c + 1 =? 5) eqn:E5.
      * rewrite hasRun_repeat_app by lia.
        replace (7 <=? S r)%nat with false by (symmetry; apply Nat.leb_gt; lia).
        cbn [orb]. apply (IH 0 (negb l) 1%nat); lia.
      * apply IH; lia.
    + assert (b = negb l) as -> by (destruct b, l; try reflexivity; discriminate).
      cbn [Z.eqb Pos.eqb].
      rewrite hasRun_repeat_app by lia.
      replace (7 <=? r)%nat with false by (symmetry; apply Nat.leb_gt; lia).
      cbn [orb]. apply (IH 1 (negb l) 1%nat); lia.
Qed.

Lemma stuffedFrame_no_run7 frame :
  hasRun 7 (LOW :: stuffedFrame frame) = false.
Proof.
  unfold stuffedFrame.
  apply (stuffBits_runs _ 0 LOW 1%nat); lia.
Qed.

(** ** Encoding and decoding: lemmas *)

Lemma slice_app_exact x :
  forall pre post : list bool,
    slice (pre ++ x ++ post) (length pre) (length x) = x.
Proof.
  induction x as [|a x IH]; intros pre post; [reflexivity|].
  cbn [length]. rewrite slice_S. cbn [app]. rewrite nth_middle. f_equal.
  specialize (IH (pre ++ [a]) post).
  rewrite length_app in IH. cbn [length] in IH.
  rewrite Nat.add_1_r in IH. rewrite <- app_assoc in IH. exact IH.
Qed.

Lemma slice_at (pre x post buf : list bool) (s w : nat) :
  buf = pre ++ x ++ post -> s = length pre -> w = length x ->
  slice buf s w = x.
Proof. intros -> -> ->. apply slice_app_exact. Qed.

Lemma readBits_uint16 buf w bitIndex :
  (w <= 16)%nat -> 0 <= bitIndex ->
  readBits uint16 w buf bitIndex 0 = bitsValue (slice buf (Z.to_nat bitIndex) w).
Proof.
  intros Hw Hi.
  rewrite (readBits_value uint16 65536); try lia.
  - intros x Hx. apply Z.mod_small. exact Hx.
  - rewrite Z.mul_1_l. change 65536 with (2 ^ Z.of_nat 16).
    apply Z.pow_le_mono_r; lia.
Qed.

Lemma decodeData_after buf count :
  forall i bitIndex (data : list Z) k,
    (i + count <= k)%nat ->
    decodeData buf count i bitIndex data !! k = data !! k.
Proof.
  induction count as [|count IH]; intros i bitIndex data k Hk; [reflexivity|].
  cbn [decodeData]. rewrite IH by lia.
  apply list_lookup_insert_ne. lia.
Qed.

Lemma seq_split_at i d :
  (i < d)%nat -> seq 0 d = seq 0 i ++ [i] ++ seq (S i) (d - S i).
Proof.
  intros H. replace d with (i + S (d - S i))%nat at 1 by lia.
  rewrite seq_app. reflexivity.
Qed.

(** The data bytes of a frame sit eight bits apart behind the eighteen
    identifier and control bits. *)
Lemma frame_bits_split frame i :
  (i < Z.to_nat (clamp_dlc (dlc frame)))%nat ->
  exists pre post,
    frame_bits frame = pre ++ bits_msb 8 (nth i (data frame) 0) ++ post
    /\ length pre = (18 + 8 * i)%nat.
Proof.
  intros Hi. unfold frame_bits.
  set (d := Z.to_nat (clamp_dlc (dlc frame))) in *.
  rewrite (seq_split_at i d Hi).
  rewrite !flat_map_app. cbn [flat_map]. rewrite app_nil_r.
  eexists (bits_msb 11 (id frame) ++ [false; false; false]
           ++ bits_msb 4 (clamp_dlc (dlc frame))
           ++ flat_map (fun i0 => bits_msb 8 (nth i0 (data frame) 0)) (seq 0 i)),
          _.
  split.
  - rewrite <- !app_assoc. reflexivity.
  - rewrite !length_app, !bits_msb_length.
    rewrite (flat_map_length_const _ 8) by (intros; apply bits_msb_length).
    rewrite length_seq. cbn [length]. lia.
Qed.

Lemma decodeFrame_parts buf caller :
  let r := decodeFrame buf caller in
  r.1.2 = readBits uint16 15 buf (18 + 8 * dlc r.1.1) 0
  /\ r.2 = 33 + 8 * dlc r.1.1.
Proof. unfold decodeFrame. cbn [fst snd dlc]. split; [f_equal|]; lia. Qed.

(** X3. Decoding a buffer that holds the bits of a frame and its CRC gives
    the frame back, and its CRC check passes. *)
Theorem decodeFrame_frame_bits frame caller junk :
  length (data caller) = 8%nat ->
  0 <= dlc frame ->
  let sent := frame_bits frame in
  let crc := calculateCRC sent (Z.of_nat (length sent)) in
  let buf := sent ++ bits_msb 15 crc ++ junk in
  let r := decodeFrame buf caller in
  id r.1.1 = id frame mod 2048
  /\ dlc r.1.1 = Z.min (dlc frame) 8
  /\ (forall i, (i < Z.to_nat (Z.min (dlc frame) 8))%nat ->
        data r.1.1 !! i = Some (nth i (data frame) 0 mod 256))
  /\ (forall i, (Z.to_nat (Z.min (dlc frame) 8) <= i)%nat ->
        data r.1.1 !! i = data caller !! i)
  /\ r.1.2 = crc
  /\ calculateCRC buf (r.2 - 15) = r.1.2.
Proof.
  intros Hlen Hdlc sent crc buf r.
  destruct (decodeFrame_spec buf caller Hlen) as (Hid & Hd & Hdata).
  fold r in Hid, Hd, Hdata.
  destruct (decodeFrame_parts buf caller) as [Hcrc Hidx].
  fold r in Hcrc, Hidx.
  pose proof (frame_bits_length_eq frame) as Hsent. fold sent in Hsent.
  assert (Hmin : 0 <= Z.min (dlc frame) 8 <= 8) by lia.
  assert (Sid : slice buf 0 11 = bits_msb 11 (id frame)).
  { apply (slice_at [] _ ([false; false; false]
             ++ bits_msb 4 (clamp_dlc (dlc frame))
             ++ flat_map (fun i => bits_msb 8 (nth i (data frame) 0))
                  (seq 0 (Z.to_nat (clamp_dlc (dlc frame))))
             ++ bits_msb 15 crc ++ junk)).
    - unfold buf, sent, frame_bits. rewrite <- !app_assoc. reflexivity.
    - reflexivity.
    - rewrite bits_msb_length. reflexivity. }
  assert (Sdlc : slice buf 14 4 = bits_msb 4 (clamp_dlc (dlc frame))).
  { apply (slice_at (bits_msb 11 (id frame) ++ [false; false; false]) _
             (flat_map (fun i => bits_msb 8 (nth i (data frame) 0))
                  (seq 0 (Z.to_nat (clamp_dlc (dlc frame))))
              ++ bits_msb 15 crc ++ junk)).
    - unfold buf, sent, frame_bits. rewrite <- !app_assoc. reflexivity.
    - rewrite length_app, bits_msb_length. reflexivity.
    - rewrite bits_msb_length. reflexivity. }
  assert (Hd' : dlc r.1.1 = Z.min (dlc frame) 8).
  { rewrite Hd, Sdlc, bits_msb_value, clamp_dlc_min.
    change (2 ^ Z.of_nat 4) with 16. rewrite Z.mod_small by lia. lia. }
  split; [rewrite Hid, Sid, bits_msb_value; reflexivity|].
  split; [exact Hd'|].
  split; [|split; [|split]].
  - intros i Hi. rewrite Hdata by (rewrite Hd'; exact Hi).
    destruct (frame_bits_split frame i) as (pre & post & Hsplit & Hpre);
      [rewrite clamp_dlc_min; exact Hi|].
    rewrite (slice_at pre (bits_msb 8 (nth i (data frame) 0))
               (post ++ bits_msb 15 crc ++ junk)).
    + rewrite bits_msb_value. reflexivity.
    + unfold buf, sent. rewrite Hsplit, <- !app_assoc. reflexivity.
    + symmetry. exact Hpre.
    + rewrite bits_msb_length. reflexivity.
  - intros i Hi. unfold r, decodeFrame. cbn [fst data].
    apply decodeData_after.
    unfold r, decodeFrame in Hd'. cbn [fst dlc] in Hd'. rewrite Hd'. lia.
  - rewrite Hcrc, Hd', readBits_uint16 by lia.
    rewrite (slice_at sent (bits_msb 15 crc) junk).
    + rewrite bits_msb_value. apply Z.mod_small.
      unfold crc. rewrite calculateCRC_crc15. apply crc15_range.
    + reflexivity.
    + rewrite Hsent. lia.
    + rewrite bits_msb_length. reflexivity.
  - rewrite Hidx, Hd'.
    assert (Hcrc' : r.1.2 = crc).
    { rewrite Hcrc, Hd', readBits_uint16 by lia.
      rewrite (slice_at sent (bits_msb 15 crc) junk).
      + rewrite bits_msb_value. apply Z.mod_small.
        unfold crc. rewrite calculateCRC_crc15. apply crc15_range.
      + reflexivity.
      + rewrite Hsent. lia.
      + rewrite bits_msb_length. reflexivity. }
    rewrite Hcrc'. unfold crc, calculateCRC. do 2 f_equal.
    replace (Z.to_nat (33 + 8 * Z.min (dlc frame) 8 - 15)) with (length sent)
      by (rewrite Hsent; lia).
    unfold buf. rewrite take_app_length.
    rewrite Nat2Z.id, firstn_all. reflexivity.
Qed.

Lemma decodeFrame_frame_bits_witness :
  let sent := frame_bits frameS1 in
  let crc := calculateCRC sent (Z.of_nat (length sent)) in
  let r := decodeFrame (sent ++ bits_msb 15 crc ++ repeat true 79) frameOld in
  length (data frameOld) = 8%nat /\ 0 <= dlc frameS1
  /\ id r.1.1 = 0x123 /\ dlc r.1.1 = 4
  /\ data r.1.1 !! 3%nat = Some 0xEF
  /\ data r.1.1 !! 4%nat = Some 5
  /\ r.1.2 = crc.
Proof.
  intros sent crc r.
  assert (Hlen : length (data frameOld) = 8%nat) by reflexivity.
  assert (Hdlc : 0 <= dlc frameS1) by (cbn; lia).
  destruct (decodeFrame_frame_bits frameS1 frameOld (repeat true 79) Hlen Hdlc)
    as (Hid & Hd & Hdata & Hrest & Hcrc & _).
  fold sent in Hid, Hd, Hdata, Hrest, Hcrc. fold crc in Hid, Hd, Hdata, Hrest, Hcrc.
  fold r in Hid, Hd, Hdata, Hrest, Hcrc.
  split; [exact Hlen|]. split; [exact Hdlc|].
  split; [rewrite Hid; reflexivity|]. split; [rewrite Hd; reflexivity|].
  split; [rewrite (Hdata 3%nat) by (cbn; lia); reflexivity|].
  split; [rewrite (Hrest 4%nat) by (cbn; lia); reflexivity|exact Hcrc].
Defined.

(** ** The receiver on a sampled bus: lemmas *)

(** A call made when the next sample falls due gets past the time gate,
    whatever the 32-bit clock has wrapped to. *)
Lemma due_gate L last bitTime :
  (L - last) mod 4294967296 = 0 ->
  (uint32 (L + bitTime - last) <? uint32 bitTime) = false.
Proof.
  intros H. unfold uint32.
  replace (L + bitTime - last) with ((L - last) + bitTime) by lia.
  rewrite <- Z.add_mod_idemp_l, H by lia. rewrite Z.add_0_l.
  apply Z.ltb_irrefl.
Qed.

Lemma due_next L last bitTime :
  (L - last) mod 4294967296 = 0 ->
  (L + bitTime - uint32 (last + bitTime)) mod 4294967296 = 0.
Proof.
  intros H. unfold uint32.
  rewrite Zminus_mod_idemp_r.
  replace (L + bitTime - (last + bitTime)) with (L - last) by lia.
  exact H.
Qed.

(** One due sample inside a frame: it is read, nothing is reported, the
    receiver stays inside the frame, and five times the bit count minus
    the run counter grows by four at least; the call fails only on a full
    buffer. *)
Lemma readFrame_inFrame L level frame n t :
  is_bus_off n = false ->
  (L - _lastSampleTime n) mod 4294967296 = 0 ->
  inFrame n ->
  match readFrame (L + _bitTimeUs n) level frame n t with
  | Some (status, frame', n', t') =>
    status = CAN_READ_NO_MSG /\ frame' = frame
    /\ inFrame n' /\ is_bus_off n' = false
    /\ _bitTimeUs n' = _bitTimeUs n
    /\ (L + _bitTimeUs n - _lastSampleTime n') mod 4294967296 = 0
    /\ 5 * _rxBitCount n - _consecutiveBits n + 4
       <= 5 * _rxBitCount n' - _consecutiveBits n'
  | None => _rxBitCount n = 128
  end.
Proof.
  intros Hoff Hdue (Hst & Hrun & Hcnt). unfold readFrame.
  rewrite Hoff, due_gate by assumption.
  cbn [_rxState set_timing _lastBit _consecutiveBits _rxBitCount _rxBuffer
       _rxPin _txPin _bitTimeUs].
  assert (Hbody :
    match
      (if (if eqb level (_lastBit n) then _consecutiveBits n + 1 else 1) =? 5
       then Some (CAN_READ_NO_MSG, frame,
                  set_rx RX_STATE_FRAME (_rxBuffer n) (_rxBitCount n) 0
                    (negb level)
                    (set_timing (_bitTimeUs n)
                       (uint32 (_lastSampleTime n + _bitTimeUs n)) n),
                  EvDigitalRead (_rxPin n) level :: t)
       else if (0 <=? _rxBitCount n) && (_rxBitCount n <? 128)
       then if level && ((if eqb level (_lastBit n)
                          then _consecutiveBits n + 1 else 1) >=? 7)
            then let n0 := set_rx RX_STATE_IDLE
                             (<[Z.to_nat (_rxBitCount n) := level]> (_rxBuffer n))
                             (_rxBitCount n + 1)
                             (if eqb level (_lastBit n)
                              then _consecutiveBits n + 1 else 1) level
                             (set_timing (_bitTimeUs n)
                                (uint32 (_lastSampleTime n + _bitTimeUs n)) n) in
                 let '(frame0, received_crc, bitIndex) :=
                   decodeFrame (<[Z.to_nat (_rxBitCount n) := level]> (_rxBuffer n))
                     frame in
                 if calculateCRC
                      (<[Z.to_nat (_rxBitCount n) := level]> (_rxBuffer n))
                      (bitIndex - 15) =? received_crc
                 then Some (CAN_READ_MSG_OK, frame0, handleSuccess false true n0,
                            EvDigitalWrite (_txPin n0) HIGH
                              :: EvDelayMicroseconds (_bitTimeUs n0)
                              :: EvDigitalWrite (_txPin n0) LOW
                              :: EvDelayMicroseconds (_bitTimeUs n0)
                              :: EvDigitalRead (_rxPin n) level :: t)
                 else Some (CAN_READ_ERROR, frame0, handleError false true n0,
                            EvDigitalRead (_rxPin n) level :: t)
            else Some (CAN_READ_NO_MSG, frame,
                       set_rx RX_STATE_FRAME
                         (<[Z.to_nat (_rxBitCount n) := level]> (_rxBuffer n))
                         (_rxBitCount n + 1)
                         (if eqb level (_lastBit n)
                          then _consecutiveBits n + 1 else 1) level
                         (set_timing (_bitTimeUs n)
                            (uint32 (_lastSampleTime n + _bitTimeUs n)) n),
                       EvDigitalRead (_rxPin n) level :: t)
       else None)
    with
    | Some (status, frame', n', t') =>
      status = CAN_READ_NO_MSG /\ frame' = frame
      /\ inFrame n' /\ is_bus_off n' = false
      /\ _bitTimeUs n' = _bitTimeUs n
      /\ (L + _bitTimeUs n - _lastSampleTime n') mod 4294967296 = 0
      /\ 5 * _rxBitCount n - _consecutiveBits n + 4
         <= 5 * _rxBitCount n' - _consecutiveBits n'
    | None => _rxBitCount n = 128
    end).
  { pose proof (due_next L _ (_bitTimeUs n) Hdue) as Hnext.
    set (run := if eqb level (_lastBit n) then _consecutiveBits n + 1 else 1).
    assert (Hr : 1 <= run <= 5) by (unfold run; destruct (eqb _ _); lia).
    assert (Hr5 : run = 5 -> _consecutiveBits n = 4)
      by (unfold run; destruct (eqb _ _); lia).
    assert (Hrn : run <= _consecutiveBits n + 1)
      by (unfold run; destruct (eqb _ _); lia).
    destruct (run =? 5) eqn:E5.
    - apply Z.eqb_eq in E5. specialize (Hr5 E5).
      unfold inFrame. cbn.
      repeat split; try assumption; try lia; try discriminate.
    - apply Z.eqb_neq in E5.
      destruct ((0 <=? _rxBitCount n) && (_rxBitCount n <? 128)) eqn:Eb;
        [|lia].
      replace (run >=? 7) with false by lia. rewrite andb_false_r.
      unfold inFrame. cbn.
      repeat split; try assumption; try lia; try discriminate. }
  destruct (_rxState n); [congruence|exact Hbody|exact Hbody].
Qed.

(** Due samples inside a frame, one after the other. *)
Lemma readFrames_inFrame levels :
  forall L frame n t,
    is_bus_off n = false ->
    (L - _lastSampleTime n) mod 4294967296 = 0 ->
    inFrame n ->
    match readFrames (sampleTimes L (_bitTimeUs n) levels) frame n t with
    | Some (statuses, frame', n', _) =>
      inFrame n'
      /\ 5 * _rxBitCount n - _consecutiveBits n + 4 * Z.of_nat (length levels)
         <= 5 * _rxBitCount n' - _consecutiveBits n'
    | None => True
    end.
Proof.
  induction levels as [|level levels IH]; intros L frame n t Hoff Hdue Hin.
  - cbn. split; [exact Hin|lia].
  - cbn [sampleTimes readFrames].
    pose proof (readFrame_inFrame L level frame n t Hoff Hdue Hin) as H1.
    destruct (readFrame (L + _bitTimeUs n) level frame n t)
      as [[[[s1 f1] n1] t1]|]; [|exact I].
    destruct H1 as (_ & _ & Hin1 & Hoff1 & Hbt & Hdue1 & Hpot).
    specialize (IH (L + _bitTimeUs n) f1 n1 t1 Hoff1 Hdue1 Hin1).
    rewrite Hbt in IH.
    destruct (readFrames _ f1 n1 t1) as [[[[ss f2] n2] t2]|]; [|exact I].
    destruct IH as [Hin2 Hpot2]. split; [exact Hin2|].
    cbn [length]. lia.
Qed.

(** X4. Once a dominant level has been sampled the receiver never gets back
    to idle, and 161 further samples at the latest run past the end of
    its buffer. *)
Theorem receiver_overruns_buffer levels frame n t :
  _rxState n = RX_STATE_IDLE ->
  state n <> CAN_STATE_BUS_OFF ->
  match sampleBus (LOW :: levels) frame n t with
  | Some (_, _, n', _) =>
    _rxState n' <> RX_STATE_IDLE /\ (length levels <= 160)%nat
  | None => True
  end.
Proof.
  intros Hidle Hoff. apply is_bus_off_false in Hoff.
  unfold sampleBus. cbn [sampleTimes readFrames].
  unfold readFrame at 1. rewrite Hoff, due_gate by (rewrite Z.sub_diag; reflexivity).
  cbn [_rxState set_timing]. rewrite Hidle. cbn [negb LOW].
  set (n1 := set_rx RX_STATE_SOF _ 0 1 LOW _).
  set (t1 := EvDigitalRead _ _ :: t).
  assert (Hin1 : inFrame n1) by (unfold inFrame, n1; cbn; repeat split; try lia; discriminate).
  assert (Hoff1 : is_bus_off n1 = false) by exact Hoff.
  assert (Hdue1 : (_lastSampleTime n + _bitTimeUs n - _lastSampleTime n1)
                    mod 4294967296 = 0).
  { unfold n1. cbn [_lastSampleTime set_rx set_timing].
    apply due_next. rewrite Z.sub_diag. reflexivity. }
  pose proof (readFrames_inFrame levels (_lastSampleTime n + _bitTimeUs n)
                frame n1 t1 Hoff1 Hdue1 Hin1) as H.
  change (_bitTimeUs n1) with (_bitTimeUs n) in H.
  destruct (readFrames _ frame n1 t1) as [[[[ss f2] n2] t2]|]; [|exact I].
  destruct H as [(Hst & Hrun & Hcnt) Hpot].
  change (_rxBitCount n1) with 0 in Hpot.
  change (_consecutiveBits n1) with 1 in Hpot.
  split; [exact Hst|lia].
Qed.

(** An idle receiver that reads the bus recessive, or is called too
    early, or is Bus-Off, stays idle and touches nothing but its
    timestamp. *)
Lemma readFrame_idle now frame n t :
  _rxState n = RX_STATE_IDLE ->
  exists n' t',
    readFrame now HIGH frame n t = Some (CAN_READ_NO_MSG, frame, n', t')
    /\ _rxState n' = RX_STATE_IDLE
    /\ _rxBuffer n' = _rxBuffer n
    /\ tec n' = tec n /\ rec n' = rec n /\ state n' = state n.
Proof.
  intros Hidle. unfold readFrame.
  destruct (is_bus_off n); [exists n, t; auto 10|].
  destruct (_ <? _); [exists n, t; auto 10|].
  cbn [_rxState set_timing]. rewrite Hidle. cbn [negb HIGH].
  eexists _, _. split; [reflexivity|]. cbn. auto 10.
Qed.

(** X5. On a bus that stays recessive every call returns, whenever it is
    made, reports no message, and leaves the receiver idle with its
    buffer, the caller's frame and the fault state as they were. *)
Theorem readFrames_recessive_bus inputs :
  forall frame n t,
    _rxState n = RX_STATE_IDLE ->
    Forall (fun input => input.2 = HIGH) inputs ->
    exists n' t',
      readFrames inputs frame n t
      = Some (repeat CAN_READ_NO_MSG (length inputs), frame, n', t')
      /\ _rxState n' = RX_STATE_IDLE
      /\ _rxBuffer n' = _rxBuffer n
      /\ tec n' = tec n /\ rec n' = rec n /\ state n' = state n.
Proof.
  induction inputs as [|[now level] inputs IH]; intros frame n t Hidle Hall.
  - exists n, t. cbn. repeat split; auto.
  - apply Forall_cons in Hall as [Hlv Hall]. cbn [snd] in Hlv. subst level.
    destruct (readFrame_idle now frame n t Hidle)
      as (n1 & t1 & E1 & I1 & B1 & T1 & R1 & S1).
    destruct (IH frame n1 t1 I1 Hall)
      as (n2 & t2 & E2 & I2 & B2 & T2 & R2 & S2).
    exists n2, t2. cbn [readFrames]. rewrite E1, E2. cbn [repeat length].
    repeat split; congruence.
Qed.

(** Five calls on a recessive bus: three due, one early, one late. *)
Lemma readFrames_recessive_bus_witness :
  let inputs := [(1008, HIGH); (1016, HIGH); (1017, HIGH); (1024, HIGH);
                 (5000, HIGH)] in
  _rxState node125k = RX_STATE_IDLE
  /\ Forall (fun input : Z * bool => input.2 = HIGH) inputs
  /\ exists n' t',
       readFrames inputs frameOld node125k []
       = Some (repeat CAN_READ_NO_MSG 5, frameOld, n', t')
       /\ _rxState n' = RX_STATE_IDLE /\ rec n' = 0.
Proof.
  intros inputs.
  assert (Hidle : _rxState node125k = RX_STATE_IDLE) by reflexivity.
  assert (Hall : Forall (fun input : Z * bool => input.2 = HIGH) inputs)
    by (repeat constructor).
  split; [exact Hidle|]. split; [exact Hall|].
  destruct (readFrames_recessive_bus inputs frameOld node125k [] Hidle Hall)
    as (n' & t' & E & I & _ & _ & R & _).
  exists n', t'. split; [exact E|]. split; [exact I|]. rewrite R. reflexivity.
Defined.

(** X6. [begin] truncates the bit time: it is the whole number of
    microseconds that fits in one bit period. *)
Theorem begin_bit_time baudrate now n t :
  0 < baudrate ->
  exists n' t',
    begin baudrate now n t = Some (n', t')
    /\ 0 <= _bitTimeUs n'
    /\ _bitTimeUs n' * baudrate <= 1000000 < (_bitTimeUs n' + 1) * baudrate.
Proof.
  intros Hb. unfold begin. destruct (baudrate =? 0) eqn:E; [lia|].
  eexists _, _. split; [reflexivity|]. cbn [_bitTimeUs set_timing].
  rewrite Z.quot_div_nonneg by lia.
  pose proof (Z.mul_div_le 1000000 baudrate Hb).
  pose proof (Z.mul_succ_div_gt 1000000 baudrate Hb).
  split; [apply Z.div_pos; lia|]. lia.
Qed.

Lemma begin_bit_time_witness :
  0 < 125000
  /\ exists n' t',
       begin 125000 1000 (ESP_CAN_new 5 4 blank) [] = Some (n', t')
       /\ 0 <= _bitTimeUs n'
       /\ _bitTimeUs n' * 125000 <= 1000000 < (_bitTimeUs n' + 1) * 125000.
Proof.
  split; [lia|].
  apply (begin_bit_time 125000 1000 (ESP_CAN_new 5 4 blank) []). lia.
Defined.

(** ** Transmission: outcome, duration, runs *)

(** X7. [sendFrame] returns true exactly when the node is not Bus-Off, no
    recessive bit of the arbitration window (identifier to data, stuff
    bits included) is read back dominant, and the bus is dominant when
    the ACK slot is read. *)
Theorem sendFrame_result rx frame n :
  (sendFrame rx frame n []).1.1
  = negb (is_bus_off n)
    && unopposed rx 2 (stuffedArbitration frame)
    && negb (rx (ackInstant frame)).
Proof.
  destruct (is_bus_off n) eqn:Hoff.
  - unfold sendFrame. rewrite Hoff. reflexivity.
  - destruct (sendFrame_outcome rx frame n Hoff) as (H & _).
    cbv zeta in H. rewrite H. cbn [negb andb]. reflexivity.
Qed.

(** X8. A call of [sendFrame] never holds the caller for more than 127 bit
    periods; a successful one takes the stuffed frame plus eleven, which
    is 44 at least. *)
Theorem sendFrame_duration rx frame n :
  let r := sendFrame rx frame n [] in
  (elapsed r.2 <= 127)%nat
  /\ (r.1.1 = true ->
      elapsed r.2 = (length (stuffedFrame frame) + 11)%nat
      /\ (44 <= elapsed r.2)%nat).
Proof.
  cbv zeta. pose proof (stuffedFrame_bounds frame) as Hb.
  destruct (is_bus_off n) eqn:Hoff.
  - unfold sendFrame. rewrite Hoff. cbn. split; [lia|discriminate].
  - destruct (sendFrame_outcome rx frame n Hoff) as (_ & H1 & H2).
    cbv zeta in H1, H2. split; [lia|].
    intros Hok. specialize (H2 Hok). lia.
Qed.

(** The sender sketch's frame, acknowledged: 78 bit periods. *)
Lemma sendFrame_duration_witness :
  let r := sendFrame (rx_ack_at 70) frameS1 node125k [] in
  r.1.1 = true /\ elapsed r.2 = 78%nat /\ (44 <= elapsed r.2 <= 127)%nat.
Proof.
  intros r.
  destruct (sendFrame_duration (rx_ack_at 70) frameS1 node125k) as [H1 H2].
  fold r in H1, H2.
  assert (Hok : r.1.1 = true) by (vm_compute; reflexivity).
  destruct (H2 Hok) as [H3 H4].
  split; [exact Hok|]. split; [rewrite H3; vm_compute; reflexivity|lia].
Defined.

Lemma take_app_minus {A} (a b : list A) :
  take (length (a ++ b) - length b) (a ++ b) = a.
Proof.
  rewrite length_app. replace (length a + length b - length b)%nat
    with (length a) by lia.
  apply take_app_length.
Qed.

(** X9. From the SOF to the end of the CRC field a successful transmission
    never puts seven bits of one polarity in a row on the wire. *)
Theorem sendFrame_no_run_of_seven rx frame n n' t' :
  sendFrame rx frame n [] = (true, n', t') ->
  hasRun 7 (stuffable (wire n t')) = false.
Proof.
  intros H. apply sendFrame_wire_stuffed in H. cbv zeta in H.
  fold (crcBits frame) in H. fold (stuffedFrame frame) in H.
  unfold stuffable. rewrite H.
  rewrite app_assoc.
  change 10%nat with (length (repeat HIGH 10)) at 1.
  rewrite take_app_minus. apply stuffedFrame_no_run7.
Qed.

Lemma sendFrame_no_run_of_seven_witness :
  let r := sendFrame (rx_ack_at 42) frameZero node125k [] in
  r.1.1 = true
  /\ hasRun 6 (stuffable (wire node125k r.2)) = true
  /\ hasRun 7 (stuffable (wire node125k r.2)) = false.
Proof.
  intros r. split; [vm_compute; reflexivity|].
  split; [vm_compute; reflexivity|].
  apply (sendFrame_no_run_of_seven (rx_ack_at 42) frameZero node125k r.1.2 r.2).
  vm_compute. reflexivity.
Defined.

(** ** Array bounds and the DLC clamp *)

(** X10. The bit sequence of a frame has 18 bits and eight for each of its
    data bytes, eight bytes at most; with the CRC the encoder and the
    decoder stay within the first 97 entries of their 128-entry
    arrays. *)
Theorem frame_arrays_in_bounds frame buf caller :
  length (frame_bits frame)
  = (18 + 8 * Z.to_nat (Z.min (dlc frame) 8))%nat
  /\ (length (frame_bits frame ++ crcBits frame) <= 97)%nat
  /\ 33 <= (decodeFrame buf caller).2 <= 97.
Proof.
  split; [apply frame_bits_length_eq|]. split.
  - rewrite length_app, crcBits_length, frame_bits_length_eq. lia.
  - destruct (decodeFrame_parts buf caller) as [_ H]. cbv zeta in H.
    rewrite H. unfold decodeFrame. cbn [fst dlc].
    rewrite readBits_uint8 by lia.
    pose proof (bitsValue_bound (slice buf (Z.to_nat (0 + 11 + 3)) 4)).
    destruct (_ >? 8) eqn:E; lia.
Qed.

(** X11. A DLC above 8 is sent as 8: the call does what it does for the same
    frame with [dlc = 8]. *)
Theorem sendFrame_dlc_clamp rx frame n t :
  dlc frame > 8 ->
  sendFrame rx frame n t
  = sendFrame rx {| id := id frame; dlc := 8; data := data frame |} n t.
Proof.
  intros Hd.
  assert (Hbits : frame_bits frame
                  = frame_bits {| id := id frame; dlc := 8; data := data frame |}).
  { unfold frame_bits. cbn [id dlc data]. rewrite !clamp_dlc_min.
    replace (Z.min (dlc frame) 8) with (Z.min 8 8) by lia. reflexivity. }
  unfold sendFrame. rewrite Hbits. reflexivity.
Qed.

(** DLC 12 with data 1..8: the DLC field on the wire is 1000 and all
    eight bytes follow. *)
Lemma sendFrame_dlc_clamp_witness :
  let frame := {| id := 0x123; dlc := 12; data := [1; 2; 3; 4; 5; 6; 7; 8] |} in
  dlc frame > 8
  /\ take 4 (drop 14 (frame_bits frame)) = [true; false; false; false]
  /\ length (frame_bits frame) = 82%nat
  /\ sendFrame rx_idle frame node125k []
     = sendFrame rx_idle {| id := 0x123; dlc := 8;
                            data := [1; 2; 3; 4; 5; 6; 7; 8] |} node125k [].
Proof.
  intros frame. split; [cbn; lia|]. split; [reflexivity|].
  split; [reflexivity|].
  apply (sendFrame_dlc_clamp rx_idle frame node125k []). cbn. lia.
Defined.

(** One dominant sample, then 161 recessive ones. *)
Lemma receiver_overruns_buffer_witness :
  _rxState node125k = RX_STATE_IDLE
  /\ state node125k <> CAN_STATE_BUS_OFF
  /\ sampleBus (LOW :: repeat HIGH 161) frameOld node125k [] = None
  /\ match sampleBus (LOW :: repeat HIGH 160) frameOld node125k [] with
     | Some (_, _, n', _) =>
       _rxState n' <> RX_STATE_IDLE /\ _rxBitCount n' = 128
     | None => False
     end.
Proof.
  assert (Hidle : _rxState node125k = RX_STATE_IDLE) by reflexivity.
  assert (Hoff : state node125k <> CAN_STATE_BUS_OFF) by discriminate.
  split; [exact Hidle|]. split; [exact Hoff|]. split.
  - pose proof (receiver_overruns_buffer (repeat HIGH 161) frameOld node125k []
                  Hidle Hoff) as H.
    destruct (sampleBus (LOW :: repeat HIGH 161) frameOld node125k [])
      as [[[[ss f'] n'] t']|]; [|reflexivity].
    destruct H as [_ H]. rewrite repeat_length in H. lia.
  - pose proof (receiver_overruns_buffer (repeat HIGH 160) frameOld node125k []
                  Hidle Hoff) as H.
    assert (Hc : option_map (fun r => _rxBitCount r.1.2)
                   (sampleBus (LOW :: repeat HIGH 160) frameOld node125k [])
                 = Some 128) by (vm_compute; reflexivity).
    revert H Hc.
    destruct (sampleBus (LOW :: repeat HIGH 160) frameOld node125k [])
      as [[[[ss f'] n'] t']|]; intros H Hc.
    + cbn [option_map fst snd] in Hc. injection Hc as Hc.
      split; [apply H|exact Hc].
    + discriminate Hc.
Defined.

(** ** The TX pin between calls *)

Section Release.

Variable rx : nat -> bool.

(** After a bit has been sent the TX pin holds that bit; its mode is
    what it was. *)
Lemma sendBit_txState n bit chk t :
  is_bus_off n = false ->
  txState n (sendBit rx n bit chk t).2 = ((txState n t).1, bit).
Proof.
  intros Hoff. unfold sendBit. rewrite Hoff.
  assert (H : txState n (EvDelayMicroseconds (_bitTimeUs n)
                           :: EvDigitalWrite (_txPin n) bit :: t)
              = ((txState n t).1, bit)).
  { rewrite !txState_cons. cbn [txStateAfter]. rewrite Z.eqb_refl.
    reflexivity. }
  destruct (chk && bit); [|exact H].
  destruct (negb _); cbn [snd]; rewrite txState_cons, H; reflexivity.
Qed.

(** Only a recessive bit can fail. *)
Lemma sendBit_false_recessive n bit chk t :
  is_bus_off n = false ->
  (sendBit rx n bit chk t).1 = false -> bit = HIGH.
Proof.
  intros Hoff. rewrite sendBit_result by exact Hoff.
  unfold HIGH. destruct chk, bit; cbn; intros; congruence.
Qed.

(** The stuffing loop keeps the mode of the TX pin, and when it stops
    early it stops on a recessive level. *)
Lemma sendStuffed_txState n chk bits :
  is_bus_off n = false ->
  forall c l t,
    let r := sendStuffed rx n chk bits c l t in
    (txState n r.2).1 = (txState n t).1
    /\ (r.1 = None -> (txState n r.2).2 = HIGH).
Proof.
  intros Hoff. induction bits as [|b bits IH]; intros c l t.
  - cbn. split; [reflexivity|discriminate].
  - cbn [sendStuffed].
    pose proof (sendBit_txState n b chk t Hoff) as T1.
    pose proof (sendBit_false_recessive n b chk t Hoff) as F1.
    destruct (sendBit rx n b chk t) as [ok1 t1]. cbn [fst snd] in T1, F1.
    destruct ok1.
    2:{ cbn [fst snd]. rewrite T1. cbn [fst snd]. split; [reflexivity|].
        intros _. apply F1. reflexivity. }
    assert (M1 : (txState n t1).1 = (txState n t).1) by (rewrite T1; reflexivity).
    destruct (_ =? 5).
    + pose proof (sendBit_txState n (negb b) chk t1 Hoff) as T2.
      pose proof (sendBit_false_recessive n (negb b) chk t1 Hoff) as F2.
      destruct (sendBit rx n (negb b) chk t1) as [ok2 t2].
      cbn [fst snd] in T2, F2.
      destruct ok2.
      2:{ cbn [fst snd]. rewrite T2. cbn [fst snd]. split; [exact M1|].
          intros _. apply F2. reflexivity. }
      specialize (IH 0 (negb b) t2). cbv zeta in IH.
      destruct IH as [I1 I2]. split; [|exact I2].
      rewrite I1, T2. exact M1.
    + match goal with
      | |- context [sendStuffed rx n chk bits ?c' b t1] =>
        specialize (IH c' b t1)
      end.
      cbv zeta in IH. destruct IH as [I1 I2]. split; [|exact I2].
      rewrite I1. exact M1.
Qed.

Lemma sendRecessive_txState n k :
  is_bus_off n = false ->
  forall t,
    txState n t = (OUTPUT, HIGH) ->
    txState n (sendRecessive rx n k t) = (OUTPUT, HIGH).
Proof.
  intros Hoff. induction k as [|k IH]; intros t Ht; [exact Ht|].
  cbn [sendRecessive]. apply IH.
  rewrite sendBit_txState by exact Hoff. rewrite Ht. reflexivity.
Qed.

End Release.

(** X12. However a call of [sendFrame] ends (refused, arbitration lost, not
    acknowledged, acknowledged), a TX pin that was an output at the
    recessive level before the call is one after it: the node never
    leaves the bus dominant. *)
Theorem sendFrame_releases_bus rx frame n t :
  txState n t = (OUTPUT, HIGH) ->
  txState n (sendFrame rx frame n t).2 = (OUTPUT, HIGH).
Proof.
  intros Ht. unfold sendFrame. destruct (is_bus_off n) eqn:Hoff; [exact Ht|].
  pose proof (sendBit_txState rx n LOW false t Hoff) as T0.
  rewrite sendBit_unchecked in T0 |- * by exact Hoff. cbn [snd] in T0.
  set (t0 := EvDelayMicroseconds _ :: EvDigitalWrite _ LOW :: t) in *.
  rewrite Ht in T0. cbn [fst] in T0.
  destruct (sendStuffed_txState rx n true (frame_bits frame) Hoff 0 LOW t0)
    as [M1 A1].
  destruct (sendStuffed rx n true (frame_bits frame) 0 LOW t0)
    as [[[c l]|] t1].
  2:{ cbn [fst snd] in *. rewrite T0 in M1. cbn [fst] in M1.
      specialize (A1 eq_refl).
      destruct (txState n t1) as [m lv]. cbn [fst snd] in *. congruence. }
  cbn [fst snd] in M1. rewrite T0 in M1. cbn [fst] in M1.
  set (crcbits := bits_msb 15 _).
  destruct (sendStuffed_unchecked rx n crcbits Hoff c l t1) as (s2 & t2 & E2).
  destruct (sendStuffed_txState rx n false crcbits Hoff c l t1) as [M2 _].
  rewrite E2 in M2 |- *. cbn [fst snd] in M2. rewrite M1 in M2.
  rewrite sendBit_unchecked by exact Hoff.
  unfold ackSlot.
  set (level := rx _).
  set (ta := EvDigitalWrite (_txPin n) HIGH :: _).
  assert (Ha : txState n ta = (OUTPUT, HIGH)).
  { unfold ta. rewrite !txState_cons. cbn [txStateAfter].
    rewrite Z.eqb_refl. reflexivity. }
  destruct (negb (negb level)); cbn [snd].
  - exact Ha.
  - apply sendRecessive_txState; [exact Hoff|].
    apply sendRecessive_txState; [exact Hoff|exact Ha].
Qed.

(** After [begin] the pin is idle; it still is after a transmission in
    which the first recessive identifier bit loses arbitration. *)
Lemma sendFrame_releases_bus_witness :
  let t0 := [EvDigitalWrite 4 HIGH; EvPinMode 5 INPUT_PULLUP;
             EvPinMode 4 OUTPUT] in
  let r := sendFrame (fun _ => LOW) frame400 node125k t0 in
  begin 125000 1000 (ESP_CAN_new 5 4 blank) [] = Some (node125k, t0)
  /\ txState node125k t0 = (OUTPUT, HIGH)
  /\ r.1.1 = false /\ elapsed r.2 = 2%nat
  /\ txState node125k r.2 = (OUTPUT, HIGH).
Proof.
  intros t0 r.
  assert (Ht : txState node125k t0 = (OUTPUT, HIGH)) by reflexivity.
  split; [reflexivity|]. split; [exact Ht|].
  split; [vm_compute; reflexivity|]. split; [vm_compute; reflexivity|].
  apply (sendFrame_releases_bus (fun _ => LOW) frame400 node125k t0 Ht).
Defined.

(** ** The CRC of a sequence followed by its CRC *)

(** Feeding a register its own bits, most significant first, shifts
    them out without ever applying the polynomial. *)
Lemma crc15_shift_out c w :
  forall r,
    (w <= 15)%nat ->
    r = (c mod 2 ^ Z.of_nat w) * 2 ^ (15 - Z.of_nat w) ->
    fold_left crc15_step (bits_msb w c) r = 0.
Proof.
  induction w as [|k IH]; intros r Hw Hr.
  - cbn [bits_msb fold_left]. subst r. cbn [Z.of_nat].
    rewrite Z.pow_0_r, Z.mod_1_r. reflexivity.
  - cbn [bits_msb fold_left]. apply IH; [lia|].
    set (K := Z.of_nat k) in *.
    assert (HK : 0 <= K <= 14) by (unfold K; lia).
    rewrite Nat2Z.inj_succ in Hr. fold K in Hr.
    set (p := 2 ^ K). set (q := 2 ^ (14 - K)).
    assert (Hp : 0 < p) by (apply Z.pow_pos_nonneg; lia).
    assert (Hq : 0 < q) by (apply Z.pow_pos_nonneg; lia).
    assert (Hpq : p * q = 2 ^ 14)
      by (unfold p, q; rewrite <- Z.pow_add_r by lia; f_equal; lia).
    assert (Hsp : 2 ^ Z.succ K = p * 2)
      by (rewrite Z.pow_succ_r by lia; unfold p; lia).
    assert (Hq' : 2 ^ (15 - Z.succ K) = q) by (unfold q; f_equal; lia).
    assert (Hq2 : 2 ^ (15 - K) = q * 2).
    { replace (15 - K) with (Z.succ (14 - K)) by lia.
      rewrite Z.pow_succ_r by lia. unfold q. lia. }
    rewrite Hsp, Hq' in Hr. rewrite Hq2.
    set (b := (c / p) mod 2).
    assert (Hb : 0 <= b < 2) by (apply Z.mod_pos_bound; lia).
    pose proof (Z.mod_pos_bound c p Hp) as Hcp.
    assert (Hm : c mod (p * 2) = c mod p + p * b)
      by (unfold b; apply Z.rem_mul_r; lia).
    rewrite Hm in Hr.
    assert (Htop : r / 2 ^ 14 = b).
    { subst r. rewrite <- Hpq.
      rewrite Z.div_mul_cancel_r by lia.
      rewrite (Z.mul_comm p b), Z.div_add by lia.
      rewrite Z.div_small by lia. lia. }
    assert (Hbit : b2z (bit_at c K) = b) by (apply bit_at_div; lia).
    assert (Hx : Z.land (Z.shiftr r 14) 1 = b).
    { change 1 with (Z.ones 1). rewrite Z.land_ones by lia.
      rewrite Z.shiftr_div_pow2, Htop by lia.
      apply Z.mod_small. change (2 ^ 1) with 2. lia. }
    unfold crc15_step. rewrite Hx, Hbit, Z.lxor_nilpotent. cbn [Z.eqb].
    rewrite land_7FFF, Z.shiftl_mul_pow2 by lia.
    change (2 ^ 15) with (2 ^ 14 * 2). rewrite <- Hpq.
    subst r.
    replace ((c mod p + p * b) * q * 2 ^ 1)
      with (c mod p * (q * 2) + b * (p * q * 2)) by (change (2 ^ 1) with 2; ring).
    rewrite Z.mod_add by lia.
    apply Z.mod_small. nia.
Qed.

(** X13. Running [calculateCRC] over a bit sequence followed by the fifteen
    bits of its CRC gives 0. *)
Theorem calculateCRC_residue bits :
  let crc := calculateCRC bits (Z.of_nat (length bits)) in
  calculateCRC (bits ++ bits_msb 15 crc) (Z.of_nat (length bits) + 15) = 0.
Proof.
  cbv zeta.
  set (crc := calculateCRC bits (Z.of_nat (length bits))).
  assert (Hrange : 0 <= crc < 2 ^ 15)
    by (unfold crc; rewrite calculateCRC_crc15; apply crc15_range).
  replace (Z.of_nat (length bits) + 15)
    with (Z.of_nat (length (bits ++ bits_msb 15 crc)))
    by (rewrite length_app, bits_msb_length; lia).
  unfold calculateCRC at 1. rewrite Nat2Z.id, firstn_all.
  rewrite fold_left_app, crc_fold_refines.
  assert (Hc : Z.land (fold_left crc_step bits 0) 0x7FFF = crc).
  { unfold crc, calculateCRC. rewrite Nat2Z.id, firstn_all. reflexivity. }
  rewrite Hc. apply crc15_shift_out; [lia|].
  change (Z.of_nat 15) with 15. rewrite Z.sub_diag, Z.pow_0_r, Z.mul_1_r.
  symmetry. apply Z.mod_small. exact Hrange.
Qed.

(** ** Transmitting and the receiver's state *)

(** X14. [sendFrame] touches the two error counters and the node state and
    nothing else: pins, bit time, sample clock and the whole receiver
    state are as before, however long the call took. *)
Theorem sendFrame_keeps_receiver rx frame n t :
  let n' := (sendFrame rx frame n t).1.2 in
  _rxPin n' = _rxPin n /\ _txPin n' = _txPin n
  /\ _bitTimeUs n' = _bitTimeUs n /\ _lastSampleTime n' = _lastSampleTime n
  /\ _rxState n' = _rxState n /\ _rxBuffer n' = _rxBuffer n
  /\ _rxBitCount n' = _rxBitCount n
  /\ _consecutiveBits n' = _consecutiveBits n /\ _lastBit n' = _lastBit n.
Proof.
  cbv zeta.
  destruct (sendFrame rx frame n t) as [[ok n'] t'] eqn:E. cbn [fst snd].
  apply sendFrame_cases in E
    as [(_ & _ & -> & _)|[(_ & _ & -> & _)|[(_ & _ & -> & _)|(_ & _ & -> & _)]]].
  - repeat split.
  - unfold handleError, updateState. repeat case_match; repeat split.
  - unfold handleError, updateState. repeat case_match; repeat split.
  - unfold handleSuccess, updateState. repeat case_match; repeat split.
Qed.
